(** * Interactive map: region resolution, travel lookup, overlay and calibration

    A shallow embedding of [Project2_FlightTime/flight_time.py] and
    [Step1-GetCornerPoints/get_map.py].

    - Pixel coordinates and polygon vertices are Python ints: [Z].
    - Region names and table labels are Python strings: [string].
    - The overlay canvas is the zero image together with the ordered record of
      the drawing calls applied to it.
    - numpy float64 / float32 values are IEEE-754 binary floats, modelled with
      the Standard Library's [SpecFloat] (no primitive floats involved).
    - Calls into OpenCV whose result the program only passes along
      ([getPerspectiveTransform], [warpPerspective], hand detection) are
      section variables; the OpenCV routines whose result the program branches
      on or that fix a claimed value ([pointPolygonTest], [addWeighted]) are
      written out after the library's documented behaviour. *)

From Stdlib Require Import ZArith List Bool Lia String Permutation.
From Stdlib Require Import QArith Qround.
From Stdlib Require Import Floats.SpecFloat.
Import ListNotations.

Local Open Scope Z_scope.

(** ** Points and polygons *)

Definition point : Type := (Z * Z)%type.
Definition polygon : Type := list point.

Definition px (p : point) : Z := fst p.
Definition py (p : point) : Z := snd p.

(** ** Exceptions

    A Python call either returns or raises; [Raise] carries the exception
    class. *)

Inductive exn : Type :=
| IndexError      (* subscript out of range *)
| OverflowError   (* int() of an infinity *)
| ValueError      (* int() of a NaN *)
| AttributeError  (* method call on None *)
| CvError.        (* cv2.error: an OpenCV call refused its argument *)

Inductive result (A : Type) : Type :=
| Ok (a : A)
| Raise (e : exn).

Arguments Ok {A} a.
Arguments Raise {A} e.

Definition bind {A B : Type} (r : result A) (k : A -> result B) : result B :=
  match r with
  | Ok a => k a
  | Raise e => Raise e
  end.

Notation "x <- r ;; k" := (bind r (fun x => k))
  (at level 61, r at next level, right associativity).
Notation "' pat <- r ;; k" := (bind r (fun x => match x with pat => k end))
  (at level 61, pat pattern, r at next level, right associativity).

(** ** Region containment: [cv2.pointPolygonTest(polygon_np, point, False)] *)

Module Geometry.

(** The routine belongs to OpenCV (imgproc); the program branches on its
    sign, so its loop is written out here.  The contour is an int32 array
    and the query point a tuple of Python ints.  The binding turns the
    tuple into a [Point2f]: each coordinate becomes a C double and then a
    float, that is, the nearest binary32 value ([point2f] below), and it is
    this converted point that is tested.  For a converted point with
    integral coordinates OpenCV takes its integer branch: it walks the
    edges [(v0, v)] of the closed contour starting with the edge from the
    last vertex to the first, returns [0] as soon as the point is found on
    an edge, and otherwise counts the edges crossed by the horizontal ray
    to the right of the point; the result is [1] for an odd count and [-1]
    for an even one, and [-1] for an empty contour.

    The loop below works on exact integers.  It is OpenCV's loop as long
    as the vertices fit int32, the converted point fits a C int and the
    coordinate differences do not leave the 32-bit range; beyond that
    OpenCV wraps around or takes its floating-point branch, and
    [np.array(polygon, np.int32)] refuses a vertex outside int32.  The
    statements that depend on this carry the range [exact_coordinate] as a
    hypothesis. *)

(** The integer a float obtained from the integer [z] stands for. *)
Definition float_value (x : spec_float) (z : Z) : Z :=
  match x with
  | S754_zero _ => 0
  | S754_finite s m e =>
      cond_Zopp s
        match e with
        | Zneg k => Z.pos m / 2 ^ Z.pos k
        | _ => Z.pos m * 2 ^ e
        end
  | _ => z
  end.

(** Python int to C double, then double to float, each to the nearest
    value, ties to even.  (An integer too large for binary32 becomes an
    infinity, which lies beyond every vertex as the integer itself does;
    [float_value] keeps the integer there.  The points of the program come
    from [int()] of a binary64 value, so they are never too large for a
    double.) *)
Definition float64_round (z : Z) : Z :=
  float_value (binary_normalize 53 1024 z 0 false) z.

Definition float32_round (z : Z) : Z :=
  float_value (binary_normalize 24 128 z 0 false) z.

Definition point2f (pt : point) : point :=
  (float32_round (float64_round (px pt)),
   float32_round (float64_round (py pt))).

Definition edge_skipped (ip v0 v : point) : bool :=
  ((py v0 <=? py ip) && (py v <=? py ip))
  || ((py ip <? py v0) && (py ip <? py v))
  || ((px v0 <? px ip) && (px v <? px ip)).

Definition edge_touch (ip v0 v : point) : bool :=
  (py ip =? py v)
  && ((px ip =? px v)
      || ((py ip =? py v0)
          && (((px v0 <=? px ip) && (px ip <=? px v))
              || ((px v <=? px ip) && (px ip <=? px v0))))).

Definition edge_dist (ip v0 v : point) : Z :=
  (py ip - py v0) * (px v - px v0) - (px ip - px v0) * (py v - py v0).

Fixpoint scan_edges (ip v0 : point) (cnt : list point) (counter : nat) : Z :=
  match cnt with
  | [] => if Nat.even counter then -1 else 1
  | v :: cnt' =>
      if edge_skipped ip v0 v then
        if edge_touch ip v0 v then 0
        else scan_edges ip v cnt' counter
      else
        let dist := edge_dist ip v0 v in
        if dist =? 0 then 0
        else
          let dist := if py v <? py v0 then - dist else dist in
          scan_edges ip v cnt' (counter + (if (0 <? dist)%Z then 1 else 0))%nat
  end.

Definition pointPolygonTest (contour : polygon) (pt : point) : Z :=
  match contour with
  | [] => -1
  | _ :: _ => scan_edges (point2f pt) (last contour (0, 0)) contour 0
  end.

(** The loop seen edge by edge: the edges in the order they are visited,
    whether an edge makes the loop return [0], and whether it adds to
    [counter]. *)
Fixpoint edges_from (v0 : point) (cnt : list point) : list (point * point) :=
  match cnt with
  | [] => []
  | v :: cnt' => (v0, v) :: edges_from v cnt'
  end.

Definition edge_found (ip : point) (e : point * point) : bool :=
  let (v0, v) := e in
  if edge_skipped ip v0 v then edge_touch ip v0 v
  else edge_dist ip v0 v =? 0.

Definition edge_counted (ip : point) (e : point * point) : bool :=
  let (v0, v) := e in
  negb (edge_skipped ip v0 v)
  && (0 <? (if py v <? py v0 then - edge_dist ip v0 v
            else edge_dist ip v0 v)).

(** The test of [create_overlay_image]: [result >= 0]. *)
Definition region_hit (poly : polygon) (pt : point) : bool :=
  0 <=? pointPolygonTest poly pt.

(** *** What "inside or on the boundary" means

    The boundary of a closed polygon is the union of its edges: the
    segments between consecutive vertices and the closing segment from the
    last vertex back to the first.  A point is inside when the horizontal
    ray leaving it to the right meets an odd number of edges (the even-odd
    rule; an edge owns its lower end point and not its upper one). *)
Fixpoint consecutive (l : list point) : list (point * point) :=
  match l with
  | a :: (b :: _) as tl => (a, b) :: consecutive tl
  | _ => []
  end.

Definition polygon_edges (poly : polygon) : list (point * point) :=
  match poly with
  | [] => []
  | first :: _ => consecutive poly ++ [(last poly first, first)]
  end.

Definition on_segment (a b p : point) : Prop :=
  (py p - py a) * (px b - px a) = (px p - px a) * (py b - py a)
  /\ Z.min (px a) (px b) <= px p <= Z.max (px a) (px b)
  /\ Z.min (py a) (py b) <= py p <= Z.max (py a) (py b).

Definition on_boundary (poly : polygon) (p : point) : Prop :=
  exists a b, In (a, b) (polygon_edges poly) /\ on_segment a b p.

(** Abscissa at which the line through [a] and [b] meets height [y]. *)
Definition edge_x_at (a b : point) (y : Z) : Q :=
  (inject_Z (px a)
   + inject_Z (y - py a) * inject_Z (px b - px a) / inject_Z (py b - py a))%Q.

Definition straddles (a b : point) (y : Z) : bool :=
  ((py a <=? y) && (y <? py b)) || ((py b <=? y) && (y <? py a)).

Definition ray_crosses (p : point) (e : point * point) : bool :=
  let (a, b) := e in
  straddles a b (py p)
  && negb (Qle_bool (edge_x_at a b (py p)) (inject_Z (px p))).

Definition ray_crossings (poly : polygon) (p : point) : nat :=
  List.length (filter (ray_crosses p) (polygon_edges poly)).

Definition inside_even_odd (poly : polygon) (p : point) : Prop :=
  Nat.odd (ray_crossings poly p) = true.

Definition square : polygon := [(0, 0); (10, 0); (10, 10); (0, 10)].

(** *** The range in which the conversions of the call are exact

    Every integer of absolute value at most [2^24] is a binary32 value,
    fits int32, and differences and products of such integers stay far
    inside the 64-bit range. *)
Definition exact_coordinate (z : Z) : Prop := - 2 ^ 24 <= z <= 2 ^ 24.

Definition exact_point (p : point) : Prop :=
  exact_coordinate (px p) /\ exact_coordinate (py p).

Definition exact_polygon (poly : polygon) : Prop := Forall exact_point poly.

End Geometry.

(** ** Travel table: [flight_time_list] and the membership test on it *)

Module Travel.

(** A row of the table is a three-element list
    [[origin, destination, duration]]. *)
Definition flight_time : Type := (string * string * string)%type.

Definition origin (ft : flight_time) : string := fst (fst ft).
Definition destination (ft : flight_time) : string := snd (fst ft).
Definition duration (ft : flight_time) : string := snd ft.

Definition flight_time_list : list flight_time :=
  [ ("USA", "India", "14 hours");
    ("USA", "China", "15 hours");
    ("Russia", "India", "6 hours");
    ("Canada", "India", "17 hours");
    ("Saudi Arabia", "USA", "14 hours") ]%string.

(** Python's [name in flight_time]: equality with any of the three
    elements of the row. *)
Definition contains (name : string) (ft : flight_time) : bool :=
  String.eqb name (origin ft) || String.eqb name (destination ft)
  || String.eqb name (duration ft).

(** [check[0] in flight_time and check[1] in flight_time]. *)
Definition entry_matches (a b : string) (ft : flight_time) : bool :=
  contains a ft && contains b ft.

(** The rows for which the loop over [flight_time_list] renders text, in
    table order. *)
Definition lookup (a b : string) : list flight_time :=
  filter (entry_matches a b) flight_time_list.

End Travel.

(** ** Overlay canvas and [create_overlay_image] *)

Module Overlay.

Definition colour : Type := (Z * Z * Z)%type.

(** One drawing call on an image. *)
Inductive draw : Type :=
| Polylines (pts : polygon) (isClosed : bool) (color : colour) (thickness : Z)
| FillPoly (pts : polygon) (color : colour)
| PutTextRect (text : string) (pos : point) (scale thickness : Z)
| Line (pt1 pt2 : point) (color : colour) (thickness : Z)
| Circle (center : point) (radius : Z) (color : colour).

(** [np.zeros((h, w, 3))] followed by the drawing calls made so far, oldest
    first; [[]] is the blank canvas. *)
Definition canvas : Type := list draw.

(** A stored region [[polygon, name]].  The loops below are written for
    polygons whose vertices fit int32, which is what
    [np.array(polygon, np.int32)] accepts. *)
Definition region : Type := (polygon * string)%type.

(** What [get_finger_location] hands over when it is not [None]: a tuple
    (one hand) or a two-element list of tuples (two hands). *)
Inductive warped_point : Type :=
| Single (p : point)
| Pair (p1 p2 : point).

Definition green : colour := (0, 255, 0).

(** The three calls made for a matched region; [polygon[0]] raises
    [IndexError] on an empty polygon (after the two calls before it, which
    are lost with the frame). *)
Definition highlight (r : region) (img : canvas) : result canvas :=
  let (poly, name) := r in
  match poly with
  | [] => Raise IndexError
  | first :: _ =>
      Ok (img ++ [ Polylines poly true green 2;
                   FillPoly poly green;
                   PutTextRect name first 1 1 ])
  end.

(** Inner loop of the list branch, for one [warp_point]: the state is
    [(imgOverlay, check)]. *)
Fixpoint mark_regions (polygons : list region) (warp_point : point)
    (st : canvas * list string) : result (canvas * list string) :=
  match polygons with
  | [] => Ok st
  | (poly, name) :: rest =>
      if Geometry.region_hit poly warp_point then
        img <- highlight (poly, name) (fst st) ;;
        mark_regions rest warp_point (img, snd st ++ [name])
      else mark_regions rest warp_point st
  end.

(** Outer loop of the list branch. *)
Fixpoint mark_points (polygons : list region) (pts : list point)
    (st : canvas * list string) : result (canvas * list string) :=
  match pts with
  | [] => Ok st
  | p :: pts' =>
      st' <- mark_regions polygons p st ;;
      mark_points polygons pts' st'
  end.

(** The two [putTextRect] calls made for one matching row. *)
Definition flight_text (ft : Travel.flight_time) : list draw :=
  [ PutTextRect (Travel.destination ft ++ " to " ++ Travel.origin ft)%string
                (0, 100) 8 5;
    PutTextRect (Travel.duration ft) (0, 200) 8 5 ].

(** Body of [if len(check) == 2:]. *)
Definition connect (p1 p2 : point) (check : list string) (img : canvas)
  : canvas :=
  match check with
  | [a; b] =>
      img ++ [Line p1 p2 green 10]
          ++ flat_map flight_text (Travel.lookup a b)
  | _ => img
  end.

(** The [else] branch: one point. *)
Fixpoint mark_single (polygons : list region) (pt : point) (img : canvas)
  : result canvas :=
  match polygons with
  | [] => Ok img
  | (poly, name) :: rest =>
      if Geometry.region_hit poly pt then
        img' <- highlight (poly, name) img ;;
        mark_single rest pt (img' ++ [PutTextRect name (0, 100) 8 5])
      else mark_single rest pt img
  end.

(** [create_overlay_image] returns the canvas; [check] is local to its list
    branch, so the branch is written once with [check] kept
    ([overlay_and_check]) and the function projects the canvas out. *)
Definition overlay_and_check (polygons : list region) (p1 p2 : point)
    (imgOverlay : canvas) : result (canvas * list string) :=
  '(img, check) <- mark_points polygons [p1; p2] (imgOverlay, []) ;;
  Ok (connect p1 p2 check img, check).

Definition create_overlay_image (polygons : list region)
    (wp : warped_point) (imgOverlay : canvas) : result canvas :=
  match wp with
  | Pair p1 p2 =>
      '(img, _) <- overlay_and_check polygons p1 p2 imgOverlay ;;
      Ok img
  | Single p => mark_single polygons p imgOverlay
  end.

(** The calls expected for one matched region, label at its first vertex. *)
Definition highlight_calls (r : region) : list draw :=
  [ Polylines (fst r) true green 2;
    FillPoly (fst r) green;
    PutTextRect (snd r) (hd (0, 0) (fst r)) 1 1 ].


(** The region query of the specification: the names of the regions that
    contain the point, in load order. *)
Definition matching_names (polygons : list region) (pt : point)
  : list string :=
  map snd (filter (fun r => Geometry.region_hit (fst r) pt) polygons).

Definition matching_regions (polygons : list region) (pt : point)
  : list region :=
  filter (fun r => Geometry.region_hit (fst r) pt) polygons.

End Overlay.

(** ** Floating point and [warp_single_point] *)

Module Homography.

(** numpy float64 (IEEE-754 binary64) and float32 (binary32). *)
Definition float : Type := spec_float.

Definition fmul : float -> float -> float := SFmul 53 1024.
Definition fadd : float -> float -> float := SFadd 53 1024.
Definition fdiv : float -> float -> float := SFdiv 53 1024.

(** [np.array([...], dtype=np.float32)] on a Python int: numpy takes the
    int to a C double and the double to a float, each time to the nearest
    value.  (Landmarks are pixel positions; an int beyond the binary64
    range, which numpy refuses, is not among them.) *)
Definition float32_of_int (n : Z) : float :=
  match binary_normalize 53 1024 n 0 false with
  | S754_finite s m e => binary_round 24 128 s m e
  | x => x
  end.

(** Widening a binary32 value to binary64 keeps its value; the mantissa is
    re-aligned to 53 bits. *)
Definition float64_of_float32 (x : float) : float :=
  match x with
  | S754_finite s m e => binary_round 53 1024 s m e
  | _ => x
  end.

Definition vec3 : Type := (float * float * float)%type.
Definition matrix : Type := (vec3 * vec3 * vec3)%type.

(** [point_homogeneous]: [[x, y, 1]] as float32, widened by [np.dot]. *)
Definition point_homogeneous (pt : point) : vec3 :=
  (float64_of_float32 (float32_of_int (px pt)),
   float64_of_float32 (float32_of_int (py pt)),
   float64_of_float32 (float32_of_int 1)).

(** One row of the product.  numpy hands the product to its BLAS kernel,
    which picks the order of the sum and may fuse a multiplication with
    the addition that follows it, so the last bit of a component is the
    kernel's affair.  The row is written here with each product and each
    sum rounded, left to right.  The statements below do not rest on that
    choice: they relate the result to the quotients of the three
    components, whatever sum produced them, and the sample products they
    are run on are exact. *)
Definition dot_row (r v : vec3) : float :=
  let '(a, b, c) := r in
  let '(x, y, z) := v in
  fadd (fadd (fmul a x) (fmul b y)) (fmul c z).

(** [np.dot(matrix, point_homogeneous.T).T]: the three homogeneous
    components. *)
Definition point_homogeneous_transformed (m : matrix) (pt : point) : vec3 :=
  let '(r0, r1, r2) := m in
  let v := point_homogeneous pt in
  (dot_row r0 v, dot_row r1 v, dot_row r2 v).

(** Python's [int(x)] on a float: the integer part, toward zero;
    [OverflowError] on an infinity, [ValueError] on a NaN. *)
Definition int_of_float (x : float) : result Z :=
  match x with
  | S754_zero _ => Ok 0
  | S754_finite s m e =>
      Ok (cond_Zopp s
            match e with
            | Zneg k => Z.pos m / 2 ^ Z.pos k
            | _ => Z.pos m * 2 ^ e
            end)
  | S754_infinity _ => Raise OverflowError
  | S754_nan => Raise ValueError
  end.

Definition warp_single_point (pt : point) (m : matrix) : result point :=
  let '(h0, h1, w) := point_homogeneous_transformed m pt in
  let point_warped := (fdiv h0 w, fdiv h1 w) in
  a <- int_of_float (fst point_warped) ;;
  b <- int_of_float (snd point_warped) ;;
  Ok (a, b).

(** *** Reading a float as a number *)


Definition is_finite (x : float) : bool :=
  match x with S754_zero _ | S754_finite _ _ _ => true | _ => false end.

(** The rational a finite float stands for. *)
Definition value (x : float) : Q :=
  match x with
  | S754_finite s m (Zneg k) => Qmake (cond_Zopp s (Z.pos m)) (2 ^ k)
  | S754_finite s m e => inject_Z (cond_Zopp s (Z.pos m) * 2 ^ e)
  | _ => 0%Q
  end.

(** Truncation of a rational toward zero. *)
Definition Qtruncate (q : Q) : Z :=
  if Qle_bool 0 q then Qfloor q else Qceiling q.


End Homography.

(** ** Images, [cv2.addWeighted] and [inverse_warp_image] *)

Module Blend.

(** A uint8 BGR pixel and an image as rows of pixels. *)
Definition pixel : Type := (Z * Z * Z)%type.
Definition image : Type := list (list pixel).

Definition shape0 (img : image) : Z := Z.of_nat (List.length img).
Definition shape1 (img : image) : Z := Z.of_nat (List.length (hd [] img)).

Definition float32 (n : Z) : spec_float := binary_normalize 24 128 n 0 false.

(** The Python float [0.65]: the binary64 value nearest to 65/100. *)
Definition lit_0_65 : spec_float :=
  SFdiv 53 1024 (binary_normalize 53 1024 65 0 false)
                (binary_normalize 53 1024 100 0 false).

Definition float32_of_float64 (x : spec_float) : spec_float :=
  match x with
  | S754_finite s m e => binary_round 24 128 s m e
  | _ => x
  end.

(** For 8-bit images OpenCV keeps the three scalars in single precision. *)
Definition alpha : spec_float := float32 1.
Definition beta : spec_float := float32_of_float64 lit_0_65.
Definition gamma : spec_float := float32 0.

(** [cvRound]: nearest integer, halves to even; an infinity or a NaN gives
    the x86 integer indefinite value. *)
Definition cvRound (x : spec_float) : Z :=
  match x with
  | S754_zero _ => 0
  | S754_finite s m (Zneg k) =>
      let d := 2 ^ Z.pos k in
      let q := Z.pos m / d in
      let r := Z.pos m mod d in
      cond_Zopp s
        match 2 * r ?= d with
        | Lt => q
        | Gt => q + 1
        | Eq => if Z.even q then q else q + 1
        end
  | S754_finite s m e => cond_Zopp s (Z.pos m * 2 ^ e)
  | _ => - 2 ^ 31
  end.

(** [saturate_cast<uchar>(int)]. *)
Definition saturate_u8 (v : Z) : Z :=
  if (0 <=? v) && (v <=? 255) then v else if 0 <? v then 255 else 0.

(** [dst = saturate(src1 * alpha + src2 * beta + gamma)] on one channel. *)
Definition addWeighted_channel (a b : Z) : Z :=
  saturate_u8
    (cvRound
       (SFadd 24 128
          (SFadd 24 128 (SFmul 24 128 (float32 a) alpha)
                        (SFmul 24 128 (float32 b) beta))
          gamma)).

Definition addWeighted_pixel (p q : pixel) : pixel :=
  let '(p0, p1, p2) := p in
  let '(q0, q1, q2) := q in
  (addWeighted_channel p0 q0, addWeighted_channel p1 q1,
   addWeighted_channel p2 q2).

Fixpoint zip_with {A B C : Type} (f : A -> B -> C) (l : list A) (l' : list B)
  : list C :=
  match l, l' with
  | a :: t, b :: t' => f a b :: zip_with f t t'
  | _, _ => []
  end.

(** [cv2.addWeighted(src1, 1, src2, 0.65, 0)].  OpenCV wants two images of
    one shape and refuses others; [inverse_warp_image] passes the camera
    frame and the overlay resampled by [warpPerspective] to the size
    [(img.shape[1], img.shape[0])] of that frame.  On images of one shape
    the result is the pixelwise sum. *)
Definition addWeighted (src1 src2 : image) : image :=
  zip_with (zip_with addWeighted_pixel) src1 src2.

Definition pixel_at (img : image) (r c : nat) : option pixel :=
  match nth_error img r with
  | Some row => nth_error row c
  | None => None
  end.

(** *** Vocabulary for statements about the blend *)

Definition uint8 (z : Z) : Prop := 0 <= z <= 255.

Definition range256 : list Z := map Z.of_nat (List.seq 0 256).

(** [v] is [a + 0.65 * b] taken to a nearest integer and cut off at 255:
    the camera value at full weight plus 0.65 times the overlay value,
    saturated. *)
Definition weighted_sum (a b v : Z) : Prop :=
  exists n, Z.abs (100 * n - (100 * a + 65 * b)) <= 50 /\ v = Z.min 255 n.

(** The same, as a test that can be run. *)
Definition weighted_sum_test (a b : Z) : bool :=
  let v := addWeighted_channel a b in
  let x := 100 * a + 65 * b in
  (a <=? v)
  && (if v <? 255 then Z.abs (100 * v - x) <=? 50
      else (v =? 255) && (25450 <=? x))
  && (if b =? 0 then v =? a else true).

Section InverseWarp.

(** OpenCV's homography solver and image resampler. *)
Variable getPerspectiveTransform :
  list point -> list point -> Homography.matrix.
Variable warpPerspective :
  image -> Homography.matrix -> Z * Z -> image.

Definition destination_points (imgOverlay : image) : list point :=
  [ (0, 0); (shape1 imgOverlay - 1, 0); (0, shape0 imgOverlay - 1);
    (shape1 imgOverlay - 1, shape0 imgOverlay - 1) ].

Definition warped_overlay (img imgOverlay : image)
    (map_points : list point) : image :=
  let M := getPerspectiveTransform (destination_points imgOverlay)
                                   map_points in
  warpPerspective imgOverlay M (shape1 img, shape0 img).

Definition inverse_warp_image (img imgOverlay : image)
    (map_points : list point) : image :=
  addWeighted img (warped_overlay img imgOverlay map_points).

End InverseWarp.

End Blend.

(** ** Calls that reach the outside world

    One loop iteration is a program that makes such calls in order and then
    returns or raises: a writer over [list call] on top of [result]. *)

Module Trace.

Import Blend.

(** [Print] stands for the messages of the two loops; the diagnostics
    printed by [mousePoints] and [get_finger_location] are not recorded. *)
Inductive call : Type :=
| WarpImage (img : option image) (points : list point)
| FindHands (img : image)
| DrawCircle (img : option image) (center : point)
| Imshow (winname : string) (img : image)
| Print (msg : string)
| Dump (file : string) (pts : list point)
| SetMouseCallback (winname : string)
| WaitKey (delay : Z).

Definition prog (A : Type) : Type := (list call * result A)%type.

Definition ret {A : Type} (a : A) : prog A := ([], Ok a).

Definition lift {A : Type} (r : result A) : prog A := ([], r).

Definition emit (c : call) : prog unit := ([c], Ok tt).

Definition seq {A B : Type} (m : prog A) (k : A -> prog B) : prog B :=
  match m with
  | (t, Ok a) => let (t', r) := k a in (t ++ t', r)
  | (t, Raise e) => (t, Raise e)
  end.

Definition calls {A : Type} (m : prog A) : list call := fst m.
Definition outcome {A : Type} (m : prog A) : result A := snd m.

End Trace.

Notation "x <~ m ;; k" := (Trace.seq m (fun x => k))
  (at level 61, m at next level, right associativity).
Notation "' pat <~ m ;; k" := (Trace.seq m (fun x => match x with pat => k end))
  (at level 61, pat pattern, m at next level, right associativity).
Notation "m ;;; k" := (Trace.seq m (fun _ => k))
  (at level 61, right associativity).

(** ** The frame loop of [flight_time.py] *)

Module FrameLoop.

Import Blend Overlay Trace.

(** A detected hand: its [lmList] of [[x, y, z]] landmarks. *)
Record hand : Type := { lmList : list (Z * Z * Z) }.

(** [hand["lmList"][8][0:2]]. *)
Definition index_finger (h : hand) : result point :=
  match nth_error (lmList h) 8 with
  | Some (x, y, _) => Ok (x, y)
  | None => Raise IndexError
  end.

Definition zeros (h w : Z) : image :=
  repeat (repeat (0, 0, 0) (Z.to_nat w)) (Z.to_nat h).

(** [img.copy()]. *)
Definition copy (img : option image) : result image :=
  match img with
  | Some im => Ok im
  | None => Raise AttributeError
  end.

Section Loop.

Variable getPerspectiveTransform :
  list point -> list point -> Homography.matrix.
Variable warpPerspective :
  image -> Homography.matrix -> Z * Z -> image.
(** [detector.findHands(img, draw=False, flipType=True)]. *)
Variable findHands : image -> list hand.
(** The pixels an image has after a sequence of drawing calls. *)
Variable paint : image -> canvas -> image.

(** The two pickles loaded at start-up. *)
Variable map_points : list point.
Variable polygons : list region.

(** [cap.read()] hands back [(False, None)] when no frame was grabbed;
    OpenCV refuses a [None] source image. *)
Definition warp_image (img : option image) (points : list point)
  : result (image * Homography.matrix) :=
  match points with
  | p0 :: p1 :: p2 :: p3 :: _ =>
      let pts1 := [p0; p1; p2; p3] in
      let pts2 := [(0, 0); (1920, 0); (0, 1080); (1920, 1080)] in
      let matrix := getPerspectiveTransform pts1 pts2 in
      match img with
      | Some im => Ok (warpPerspective im matrix (1920, 1080), matrix)
      | None => Raise CvError
      end
  | _ => Raise IndexError
  end.

(** [cv2.circle(imgWarped, center, 5, color, cv2.FILLED)]: the centre is
    read as two C ints, and the call is refused when a coordinate does
    not fit. *)
Definition c_int (z : Z) : bool := (- 2 ^ 31 <=? z) && (z <? 2 ^ 31).

Definition circle (center : point) (color : colour) : result draw :=
  if c_int (px center) && c_int (py center)
  then Ok (Circle center 5 color)
  else Raise CvError.

(** Returns [warped_point] ([None], a tuple, or a list of two tuples) and
    the dots drawn on [imgWarped]. *)
Definition get_finger_location (hands : list hand)
    (matrix : Homography.matrix)
  : result (option warped_point * canvas) :=
  match hands with
  | [] => Ok (None, [])
  | hand1 :: rest =>
      indexFinger <- index_finger hand1 ;;
      warped <- Homography.warp_single_point indexFinger matrix ;;
      dot1 <- circle warped (255, 0, 0) ;;
      match rest with
      | [hand2] =>
          indexFinger2 <- index_finger hand2 ;;
          warped2 <- Homography.warp_single_point indexFinger2 matrix ;;
          dot2 <- circle warped2 (255, 0, 255) ;;
          Ok (Some (Pair warped warped2), [dot1; dot2])
      | _ => Ok (Some (Single warped), [dot1])
      end
  end.

(** What one iteration leaves behind for inspection. *)
Record frame_state : Type := {
  warped_point_of : option warped_point;
  imgOverlay_of : canvas;
  imgOutput_of : image
}.

(** Body of [while True:] for one [cap.read()] result. *)
Definition iteration (success : bool) (img : option image)
  : prog frame_state :=
  emit (WarpImage img map_points) ;;;
  '(imgWarped, matrix) <~ lift (warp_image img map_points) ;;
  imgOutput <~ lift (copy img) ;;
  emit (FindHands imgOutput) ;;;
  '(warped_point, dots) <~
     lift (get_finger_location (findHands imgOutput) matrix) ;;
  let imgWarped := paint imgWarped dots in
  let h := shape0 imgWarped in
  let w := shape1 imgWarped in
  let imgOverlay : canvas := [] in
  st <~ lift
    match warped_point with
    | Some wp =>
        imgOverlay <- create_overlay_image polygons wp imgOverlay ;;
        Ok {| warped_point_of := warped_point;
              imgOverlay_of := imgOverlay;
              imgOutput_of :=
                inverse_warp_image getPerspectiveTransform warpPerspective
                  imgOutput (paint (zeros h w) imgOverlay) map_points |}
    | None =>
        Ok {| warped_point_of := warped_point;
              imgOverlay_of := imgOverlay;
              imgOutput_of := imgOutput |}
    end ;;
  emit (Imshow "Output Image" (imgOutput_of st)) ;;;
  emit (WaitKey 1) ;;;
  ret st.

End Loop.

End FrameLoop.

(** ** The authoring tool [get_map.py] *)

Module Authoring.

Import Blend Overlay Trace.

Definition EVENT_LBUTTONDOWN : Z := 1.

(** The two globals: the 4x2 array [points] and [counter]. *)
Record tool : Type := { points : list point; counter : nat }.

Definition initial : tool := {| points := repeat (0, 0) 4; counter := 0 |}.

(** [points[i] = x, y] on a numpy array: the row is replaced, or
    [IndexError] when [i] is past the last row. *)
Fixpoint set_row (rows : list point) (i : nat) (v : point)
  : result (list point) :=
  match rows, i with
  | [], _ => Raise IndexError
  | _ :: t, O => Ok (v :: t)
  | r :: t, S i' => t' <- set_row t i' v ;; Ok (r :: t')
  end.

Definition row (rows : list point) (i : nat) : result point :=
  match nth_error rows i with
  | Some p => Ok p
  | None => Raise IndexError
  end.

Definition mousePoints (event x y : Z) (s : tool) : result tool :=
  if event =? EVENT_LBUTTONDOWN then
    pts <- set_row (points s) (counter s) (x, y) ;;
    Ok {| points := pts; counter := S (counter s) |}
  else Ok s.

(** A mouse event reaches [mousePoints] from inside [cv2.waitKey]; an
    exception raised by the callback is printed there and the globals stay
    as they were. *)
Definition deliver (s : tool) (ev : Z * Z * Z) : tool :=
  let '(event, x, y) := ev in
  match mousePoints event x y s with
  | Ok s' => s'
  | Raise _ => s
  end.

Definition deliver_all (s : tool) (evs : list (Z * Z * Z)) : tool :=
  fold_left deliver evs s.

Inductive control : Type := Continue | Break.

Section Loop.

Variable getPerspectiveTransform :
  list point -> list point -> Homography.matrix.
Variable warpPerspective :
  image -> Homography.matrix -> Z * Z -> image.
Variable paint : image -> canvas -> image.

Definition warp_image (img : option image) (pts : list point)
  : result (image * Homography.matrix) :=
  let pts2 := [(0, 0); (1920, 0); (0, 1080); (1920, 1080)] in
  let matrix := getPerspectiveTransform pts pts2 in
  match img with
  | Some im => Ok (warpPerspective im matrix (1920, 1080), matrix)
  | None => Raise CvError
  end.

(** [cv2.circle(img, ...)]: the binding reads [None] as an empty image,
    on which the call draws nothing and returns; [img] stays [None]. *)
Definition circle (img : option image) (center : point)
  : result (option image) :=
  match img with
  | Some im => Ok (Some (paint im [Circle center 3 green]))
  | None => Ok None
  end.

(** [cv2.imshow] needs an image as well. *)
Definition frame_of (img : option image) : result image :=
  match img with
  | Some im => Ok im
  | None => Raise CvError
  end.

(** [for x in range(0, 4): cv2.circle(img, (points[x][0], points[x][1]), ...)]. *)
Fixpoint draw_points (pts : list point) (xs : list nat)
    (img : option image) : prog (option image) :=
  match xs with
  | [] => ret img
  | x :: xs' =>
      center <~ lift (row pts x) ;;
      emit (DrawCircle img center) ;;;
      img' <~ lift (circle img center) ;;
      draw_points pts xs' img'
  end.

(** One turn of [while True:]: the [cap.read()] result, the mouse events
    delivered while [cv2.waitKey(1)] runs, and the key it returns. *)
Definition iteration (s : tool) (success : bool) (img : option image)
    (events : list (Z * Z * Z)) (key : Z) : prog (control * tool) :=
  (if (counter s =? 4)%nat then
     emit (Dump "map.p" (points s)) ;;;
     emit (Print "Points saved to file: map.p") ;;;
     emit (WarpImage img (points s)) ;;;
     '(imgOutput, matrix) <~ lift (warp_image img (points s)) ;;
     emit (Imshow "Output Image" imgOutput)
   else ret tt) ;;;
  img <~ draw_points (points s) [0; 1; 2; 3]%nat img ;;
  if negb success then
    emit (Print "Failed to capture image") ;;;
    ret (Break, s)
  else
    shown <~ lift (frame_of img) ;;
    emit (Imshow "Original Image" shown) ;;;
    emit (SetMouseCallback "Original Image") ;;;
    emit (WaitKey 1) ;;;
    let s' := deliver_all s events in
    if Z.land key 255 =? 113 then ret (Break, s') else ret (Continue, s').

(** The loop over a finite script of inputs; it stops at the first
    [Break] or exception.  The state and the calls made so far are
    returned. *)
Fixpoint run (s : tool)
    (script : list (bool * option image * list (Z * Z * Z) * Z))
  : list call * tool :=
  match script with
  | [] => ([], s)
  | (success, img, events, key) :: rest =>
      match iteration s success img events key with
      | (t, Ok (Continue, s')) =>
          let (t', s'') := run s' rest in (t ++ t', s'')
      | (t, Ok (Break, s')) => (t, s')
      | (t, Raise _) => (t, s)
      end
  end.

End Loop.

(** *** Vocabulary for statements about the tool *)

(** The left-button presses among the delivered events, as points. *)
Definition presses (evs : list (Z * Z * Z)) : list point :=
  map (fun ev => (snd (fst ev), snd ev))
      (filter (fun ev => fst (fst ev) =? EVENT_LBUTTONDOWN) evs).

(** The globals one expects after the presses [cl]: the first four of them,
    then zero rows. *)
Definition after_presses (cl : list point) : tool :=
  {| points := firstn 4 cl ++ repeat (0, 0) (4 - List.length cl);
     counter := Nat.min (List.length cl) 4 |}.

(** A turn of a script that is played in full: a frame was captured and
    the key is not [q]. *)
Definition captured
    (turn : bool * option image * list (Z * Z * Z) * Z) : Prop :=
  let '(success, img, _, key) := turn in
  success = true /\ (exists im, img = Some im) /\ Z.land key 255 <> 113.

Definition is_dump (c : call) : bool :=
  match c with Dump _ _ => true | _ => false end.

Definition dumps (t : list call) : list call := filter is_dump t.

End Authoring.

(** ** Concrete inputs: stand-ins for the OpenCV routines and small data *)

Module Sample.

Import Blend.

Definition fzero : Homography.float := S754_zero false.

Definition no_transform (_ _ : list point) : Homography.matrix :=
  ((fzero, fzero, fzero), (fzero, fzero, fzero), (fzero, fzero, fzero)).

Definition of_int (n : Z) : Homography.float :=
  Homography.float64_of_float32 (Homography.float32_of_int n).

(** [[1 0 0] [0 -1 0] [0 0 2]] and a matrix whose third row vanishes on
    (5, 7, 1). *)
Definition halving : Homography.matrix :=
  ((of_int 1, of_int 0, of_int 0),
   (of_int 0, of_int (-1), of_int 0),
   (of_int 0, of_int 0, of_int 2)).


Definition no_resample (im : image) (_ : Homography.matrix) (_ : Z * Z)
  : image := im.

Definition no_paint (im : image) (_ : Overlay.canvas) : image := im.

Definition no_hands (_ : image) : list FrameLoop.hand := [].

Definition frame : image := [[(10, 20, 30); (40, 50, 60)]].

(** An overlay of the size of [frame]: blank, then one green pixel. *)
Definition green_patch : image := [[(0, 0, 0); (0, 255, 0)]].

Definition corners : list point := [(1, 2); (30, 4); (5, 60); (70, 80)].

Definition click (x y : Z) : Z * Z * Z := (Authoring.EVENT_LBUTTONDOWN, x, y).

Definition four_clicks : list (Z * Z * Z) :=
  [click 1 2; click 30 4; click 5 60; click 70 80].

Definition overlapping_regions : list Overlay.region :=
  [ (Geometry.square, "USA"%string);
    ([(5, 5); (15, 5); (15, 15); (5, 15)], "Canada"%string) ].

Definition three_regions : list Overlay.region :=
  [ (Geometry.square, "USA"%string);
    ([(5, 5); (15, 5); (15, 15); (5, 15)], "Canada"%string);
    ([(20, 0); (30, 0); (30, 10); (20, 10)], "India"%string) ].

Definition two_regions : list Overlay.region :=
  [ (Geometry.square, "USA"%string);
    ([(20, 0); (30, 0); (30, 10); (20, 10)], "India"%string) ].


(** A square whose left side sits at [x = 2^24 + 1], which is not a
    binary32 value. *)
Definition far_square : polygon :=
  [(16777217, 0); (16777227, 0); (16777227, 10); (16777217, 10)].

(** [2^e] as a binary64 value, and the matrix
    [[2^1000 0 0] [0 1 0] [0 0 2^-1000]]. *)
Definition pow2 (e : Z) : Homography.float :=
  S754_finite false 4503599627370496 (e - 52).


(** [[2^40 0 0] [0 1 0] [0 0 1]]. *)
Definition stretching : Homography.matrix :=
  ((pow2 40, fzero, fzero),
   (fzero, of_int 1, fzero),
   (fzero, fzero, of_int 1)).

End Sample.

(** ** Further vocabulary *)

Module More.

(** An image all of whose channel values are bytes. *)
Definition uint8_pixel (p : Blend.pixel) : Prop :=
  Blend.uint8 (fst (fst p)) /\ Blend.uint8 (snd (fst p))
  /\ Blend.uint8 (snd p).

Definition uint8_image (img : Blend.image) : Prop :=
  Forall (Forall uint8_pixel) img.

(** Two images with the same number of rows and, row by row, the same
    number of pixels. *)
Definition same_shape (a b : Blend.image) : Prop :=
  Forall2 (fun r1 r2 : list Blend.pixel => List.length r1 = List.length r2)
          a b.

(** The all-zero image with the rows of [img]. *)
Definition blank_like (img : Blend.image) : Blend.image :=
  map (map (fun _ : Blend.pixel => (0, 0, 0))) img.


(** All mouse events of a script of turns of the authoring loop, in
    order. *)
Definition script_events
    (script : list (bool * option Blend.image * list (Z * Z * Z) * Z))
  : list (Z * Z * Z) :=
  flat_map (fun turn => snd (fst turn)) script.

(** A hand whose nine first landmarks all sit at one pixel. *)
Definition hand_at (x y : Z) : FrameLoop.hand :=
  {| FrameLoop.lmList := repeat (x, y, 0) 9 |}.

(** How many points a result of [get_finger_location] holds. *)
Definition cardinality (r : option Overlay.warped_point) : nat :=
  match r with
  | None => 0
  | Some (Overlay.Single _) => 1
  | Some (Overlay.Pair _ _) => 2
  end.

(** The destination corners of [warp_image]. *)
Definition canonical_corners : list point :=
  [(0, 0); (1920, 0); (0, 1080); (1920, 1080)].

(** A point moved by an offset. *)
Definition shift (dx dy : Z) (p : point) : point :=
  (fst p + dx, snd p + dy).

End More.

(** ** Proof automation *)

(** Turns boolean facts about integer comparisons in the context into
    propositions. *)
Ltac reflect_bools :=
  repeat match goal with
         | H : _ && _ = true |- _ => apply andb_true_iff in H as [? ?]
         | H : _ || _ = true |- _ => apply orb_true_iff in H as [?|?]
         | H : _ && _ = false |- _ => apply andb_false_iff in H as [?|?]
         | H : _ || _ = false |- _ => apply orb_false_iff in H as [? ?]
         | H : (_ <=? _) = true |- _ => apply Z.leb_le in H
         | H : (_ <=? _) = false |- _ => apply Z.leb_gt in H
         | H : (_ <? _) = true |- _ => apply Z.ltb_lt in H
         | H : (_ <? _) = false |- _ => apply Z.ltb_ge in H
         | H : (_ =? _) = true |- _ => apply Z.eqb_eq in H
         | H : (_ =? _) = false |- _ => apply Z.eqb_neq in H
         end.

(** * Theorems *)

(** ** Region containment *)

Section GeometryFacts.

Import Geometry.

(** *** The loop, edge by edge *)

Lemma scan_edges_eq (ip v0 : point) (cnt : list point) (counter : nat) :
  scan_edges ip v0 cnt counter =
  if existsb (edge_found ip) (edges_from v0 cnt) then 0
  else if Nat.even (counter
                    + List.length (filter (edge_counted ip)
                                          (edges_from v0 cnt)))
       then -1 else 1.
Proof.
  revert v0 counter.
  induction cnt as [|v cnt IH]; intros v0 counter.
  - simpl. now rewrite Nat.add_0_r.
  - cbn [scan_edges edges_from existsb filter edge_found edge_counted].
    destruct (edge_skipped ip v0 v) eqn:Hskip; cbn [negb andb orb].
    + destruct (edge_touch ip v0 v); [reflexivity|]. apply IH.
    + destruct (edge_dist ip v0 v =? 0); cbn [orb]; [reflexivity|].
      rewrite IH.
      destruct (0 <? (if py v <? py v0 then - edge_dist ip v0 v
                      else edge_dist ip v0 v)); cbn [List.length].
      * now rewrite Nat.add_1_r, Nat.add_succ_r.
      * now rewrite Nat.add_0_r.
Qed.

Lemma edges_from_consecutive (v0 v : point) (cnt : list point) :
  edges_from v0 (v :: cnt) = (v0, v) :: consecutive (v :: cnt).
Proof.
  cbn [edges_from]. f_equal. revert v.
  induction cnt as [|w cnt IH]; intro v.
  - reflexivity.
  - cbn [edges_from consecutive]. f_equal. apply IH.
Qed.

Lemma last_cons_default (v : point) (cnt : list point) (d d' : point) :
  last (v :: cnt) d = last (v :: cnt) d'.
Proof.
  revert v. induction cnt as [|w cnt IH]; intro v.
  - reflexivity.
  - change (last (v :: w :: cnt) d) with (last (w :: cnt) d).
    change (last (v :: w :: cnt) d') with (last (w :: cnt) d').
    apply IH.
Qed.

Lemma visited_edges_perm (v : point) (cnt : list point) :
  Permutation (edges_from (last (v :: cnt) (0, 0)) (v :: cnt))
              (polygon_edges (v :: cnt)).
Proof.
  rewrite edges_from_consecutive. unfold polygon_edges.
  rewrite (last_cons_default v cnt (0, 0) v).
  apply Permutation_cons_append.
Qed.

Lemma pointPolygonTest_eq (poly : polygon) (pt : point) :
  pointPolygonTest poly pt =
  match poly with
  | [] => -1
  | _ :: _ =>
      if existsb (edge_found (point2f pt)) (polygon_edges poly) then 0
      else if Nat.even (List.length (filter (edge_counted (point2f pt))
                                            (polygon_edges poly)))
           then -1 else 1
  end.
Proof.
  destruct poly as [|v cnt]; [reflexivity|].
  unfold pointPolygonTest. rewrite scan_edges_eq. cbn [Nat.add].
  set (ip := point2f pt).
  pose proof (visited_edges_perm v cnt) as Hperm.
  set (visited := edges_from (last (v :: cnt) (0, 0)) (v :: cnt)) in *.
  assert (Hex : existsb (edge_found ip) visited
                = existsb (edge_found ip) (polygon_edges (v :: cnt))).
  { apply eq_true_iff_eq. rewrite !existsb_exists.
    split; intros (e & Hin & He); exists e; split; try assumption.
    - now apply (Permutation_in _ Hperm).
    - now apply (Permutation_in _ (Permutation_sym Hperm)). }
  rewrite Hex.
  assert (Hlen : List.length (filter (edge_counted ip) visited)
                 = List.length (filter (edge_counted ip)
                                       (polygon_edges (v :: cnt)))).
  { apply Permutation_length.
    clear Hex. induction Hperm; simpl.
    - constructor.
    - destruct (edge_counted ip x); [now constructor|assumption].
    - destruct (edge_counted ip x), (edge_counted ip y);
        try apply perm_swap; try apply Permutation_refl.
    - eapply Permutation_trans; eassumption. }
  now rewrite Hlen.
Qed.

(** *** One edge *)

Lemma edge_found_on_segment (p a b : point) :
  edge_found p (a, b) = true -> on_segment a b p.
Proof.
  destruct p as [x y], a as [ax ay], b as [bx by_].
  unfold edge_found, edge_skipped, edge_touch, edge_dist, on_segment, px, py.
  cbn [fst snd].
  intro H.
  destruct (((ay <=? y) && (by_ <=? y)) || ((y <? ay) && (y <? by_))
            || ((ax <? x) && (bx <? x))) eqn:Hskip.
  - reflect_bools; subst; repeat split; try lia.
  - reflect_bools; repeat split; try lia; try nia.
Qed.

Lemma on_segment_found (p a b : point) :
  on_segment a b p -> edge_found p (a, b) = true \/ p = a.
Proof.
  destruct p as [x y], a as [ax ay], b as [bx by_].
  unfold edge_found, edge_skipped, edge_touch, edge_dist, on_segment, px, py.
  cbn [fst snd].
  intros (Hcross & Hx & Hy).
  destruct (((ay <=? y) && (by_ <=? y)) || ((y <? ay) && (y <? by_))
            || ((ax <? x) && (bx <? x))) eqn:Hskip.
  - reflect_bools; try lia.
    destruct (Z.eq_dec y by_) as [->|Hne].
    + rewrite Z.eqb_refl. cbn [andb].
      destruct (Z.eq_dec by_ ay) as [->|Hne'].
      * left. rewrite Z.eqb_refl. cbn [andb].
        apply orb_true_iff. right. apply orb_true_iff.
        destruct (Z.le_ge_cases ax bx).
        -- left. apply andb_true_iff. split; apply Z.leb_le; lia.
        -- right. apply andb_true_iff. split; apply Z.leb_le; lia.
      * left. apply orb_true_iff. left. apply Z.eqb_eq. nia.
    + right. assert (y = ay) by lia. subst. f_equal. nia.
  - left. apply Z.eqb_eq. lia.
Qed.

Lemma end_vertex_found (a b : point) : edge_found b (a, b) = true.
Proof.
  destruct a as [ax ay], b as [bx by_].
  unfold edge_found, edge_skipped, edge_touch, edge_dist, px, py.
  cbn [fst snd].
  destruct (((ay <=? by_) && (by_ <=? by_)) || ((by_ <? ay) && (by_ <? by_))
            || ((ax <? bx) && (bx <? bx))).
  - now rewrite !Z.eqb_refl.
  - apply Z.eqb_eq. ring.
Qed.

Lemma x_at_gt (ax n d x : Z) :
  d <> 0 ->
  (inject_Z x < inject_Z ax + inject_Z n / inject_Z d)%Q
  <-> (if 0 <? d then (x - ax) * d < n else n < (x - ax) * d).
Proof.
  intro Hd. unfold Qlt, Qplus, Qdiv, Qmult, Qinv, inject_Z.
  destruct d as [|d|d]; [contradiction| |]; cbn [Qnum Qden Z.ltb Z.compare];
    simpl; nia.
Qed.

Lemma negb_Qle_bool (u v : Q) : negb (Qle_bool u v) = true <-> (v < u)%Q.
Proof.
  rewrite negb_true_iff. split.
  - intro H. apply Qnot_le_lt. intro Hle. apply Qle_bool_iff in Hle. congruence.
  - intro H. destruct (Qle_bool u v) eqn:E; [|reflexivity].
    apply Qle_bool_iff in E. exfalso. exact (Qlt_not_le _ _ H E).
Qed.

Lemma edge_counted_crosses (p : point) (e : point * point) :
  edge_counted p e = ray_crosses p e.
Proof.
  destruct e as [a b]. apply eq_true_iff_eq.
  destruct p as [x y], a as [ax ay], b as [bx by_].
  unfold edge_counted, ray_crosses, straddles, edge_skipped, edge_dist,
    edge_x_at, px, py.
  cbn [fst snd].
  change (inject_Z (y - ay) * inject_Z (bx - ax))%Q
    with (inject_Z ((y - ay) * (bx - ax))).
  rewrite !andb_true_iff, negb_Qle_bool, negb_true_iff.
  destruct (Z.eq_dec (by_ - ay) 0) as [Hd|Hd].
  - split.
    + intros [Hskip _]. reflect_bools; lia.
    + intros [Hs _]. reflect_bools; lia.
  - rewrite (x_at_gt _ _ _ _ Hd).
    rewrite !orb_false_iff, !andb_false_iff, !orb_true_iff, !andb_true_iff,
      !Z.leb_le, !Z.ltb_lt, !Z.leb_gt, !Z.ltb_ge.
    destruct (Z.ltb_spec by_ ay); destruct (Z.ltb_spec 0 (by_ - ay));
      try lia; split; intros [H1 H2]; (split; [|nia]); try lia.
    + split; [lia|]. destruct (Z_lt_le_dec ax x); [right; nia|left; lia].
    + split; [lia|]. destruct (Z_lt_le_dec ax x); [right; nia|left; lia].
Qed.

(** *** The closed contour *)

Lemma edges_from_start (v0 : point) (cnt : list point) (a b : point) :
  In (a, b) (edges_from v0 cnt) -> a = v0 \/ In a cnt.
Proof.
  revert v0. induction cnt as [|v cnt IH]; intros v0; cbn [edges_from].
  - intros [].
  - intros [[= -> ->]|H]; [now left|].
    right. destruct (IH v H) as [->|Hin]; [now left|now right].
Qed.

Lemma edges_from_end (v0 : point) (cnt : list point) (a : point) :
  In a cnt -> exists a', In (a', a) (edges_from v0 cnt).
Proof.
  revert v0. induction cnt as [|v cnt IH]; intros v0; cbn [edges_from].
  - intros [].
  - intros [->|H].
    + exists v0. now left.
    + destruct (IH v H) as [a' Ha']. exists a'. now right.
Qed.

Lemma last_In (v : point) (cnt : list point) (d : point) :
  In (last (v :: cnt) d) (v :: cnt).
Proof.
  revert v. induction cnt as [|w cnt IH]; intro v.
  - now left.
  - right. apply IH.
Qed.

Lemma polygon_edges_closed (poly : polygon) (a b : point) :
  In (a, b) (polygon_edges poly) ->
  exists a', In (a', a) (polygon_edges poly).
Proof.
  destruct poly as [|v cnt]; [intros []|].
  pose proof (visited_edges_perm v cnt) as Hperm.
  intro H. apply (Permutation_in _ (Permutation_sym Hperm)) in H.
  assert (Ha : In a (v :: cnt)).
  { destruct (edges_from_start _ _ _ _ H) as [->|Hin];
      [apply last_In|exact Hin]. }
  destruct (edges_from_end (last (v :: cnt) (0, 0)) _ _ Ha) as [a' Ha'].
  exists a'. now apply (Permutation_in _ Hperm).
Qed.

Lemma found_iff_on_boundary (poly : polygon) (p : point) :
  existsb (edge_found p) (polygon_edges poly) = true <-> on_boundary poly p.
Proof.
  rewrite existsb_exists. unfold on_boundary. split.
  - intros ([a b] & Hin & Hf). exists a, b. split; [exact Hin|].
    now apply edge_found_on_segment.
  - intros (a & b & Hin & Hseg).
    destruct (on_segment_found p a b Hseg) as [Hf| ->].
    + now exists (a, b).
    + destruct (polygon_edges_closed poly a b Hin) as [a' Ha'].
      exists (a', a). split; [exact Ha'|apply end_vertex_found].
Qed.

Lemma counted_is_ray_crossings (poly : polygon) (p : point) :
  List.length (filter (edge_counted p) (polygon_edges poly))
  = ray_crossings poly p.
Proof.
  unfold ray_crossings. f_equal. apply filter_ext.
  intro e. apply edge_counted_crosses.
Qed.

(** The three outcomes, read at the converted point. *)
Lemma pointPolygonTest_cases (poly : polygon) (p : point) :
  (on_boundary poly (point2f p) /\ pointPolygonTest poly p = 0)
  \/ (~ on_boundary poly (point2f p) /\ inside_even_odd poly (point2f p)
      /\ pointPolygonTest poly p = 1)
  \/ (~ on_boundary poly (point2f p) /\ ~ inside_even_odd poly (point2f p)
      /\ pointPolygonTest poly p = -1).
Proof.
  rewrite pointPolygonTest_eq. unfold inside_even_odd.
  rewrite <- (found_iff_on_boundary poly (point2f p)).
  rewrite <- (counted_is_ray_crossings poly (point2f p)).
  destruct poly as [|v cnt].
  - right. right. repeat split; discriminate.
  - destruct (existsb (edge_found (point2f p)) (polygon_edges (v :: cnt))).
    + left. now split.
    + right. rewrite <- Nat.negb_even.
      destruct (Nat.even _).
      * right. repeat split; discriminate.
      * left. repeat split; discriminate.
Qed.

(** *** The conversion of the query point

    An integer with at most [prec] significant bits is a value of the
    format: rounding returns the integer itself. *)

Lemma digits2_size (p : positive) : digits2_pos p = Pos.size p.
Proof. induction p; simpl; congruence. Qed.

Lemma digits2_shift (m k : positive) :
  digits2_pos (Pos.iter xO m k) = (digits2_pos m + k)%positive.
Proof.
  induction k as [|k IH] using Pos.peano_ind.
  - cbn. now rewrite Pos.add_1_r.
  - rewrite Pos.iter_succ. cbn [digits2_pos]. rewrite IH.
    now rewrite Pos.add_succ_r.
Qed.

Lemma size_bound (prec p : positive) :
  Z.pos p < 2 ^ Z.pos prec -> (Pos.size p <= prec)%positive.
Proof.
  intros Hp.
  destruct (Pos.leb_spec (Pos.size p) prec) as [H|H]; [exact H|].
  exfalso. pose proof (Pos.size_le p) as H1.
  assert (H2 : 2 ^ (Z.pos prec + 1) <= 2 ^ Z.pos (Pos.size p))
    by (apply Z.pow_le_mono_r; lia).
  rewrite <- Pos2Z.inj_pow in H2.
  rewrite Z.pow_add_r, Z.pow_1_r in H2 by lia.
  lia.
Qed.

Lemma binary_round_aux_full (prec : positive) (emax : Z) (s : bool)
    (m : positive) (e : Z) :
  digits2_pos m = prec ->
  3 - emax - Z.pos prec <= e <= emax - Z.pos prec ->
  binary_round_aux (Z.pos prec) emax s (Z.pos m) e loc_Exact
  = S754_finite s m e.
Proof.
  intros Hm He.
  unfold binary_round_aux, shr_fexp. cbn [Zdigits2]. rewrite Hm.
  replace (fexp (Z.pos prec) emax (Z.pos prec + e) - e) with 0
    by (unfold fexp, emin; lia).
  cbn [shr shr_record_of_loc shr_m loc_of_shr_record shr_r shr_s
       round_nearest_even Zdigits2].
  rewrite Hm.
  replace (fexp (Z.pos prec) emax (Z.pos prec + e) - e) with 0
    by (unfold fexp, emin; lia).
  cbn [shr shr_record_of_loc shr_m].
  replace (e <=? emax - Z.pos prec) with true
    by (symmetry; apply Z.leb_le; lia).
  reflexivity.
Qed.

Lemma binary_round_small (prec : positive) (emax : Z) (s : bool)
    (p : positive) :
  Z.pos prec <= emax -> 2 <= emax -> Z.pos p < 2 ^ Z.pos prec ->
  float_value (binary_round (Z.pos prec) emax s p 0)
              (cond_Zopp s (Z.pos p))
  = cond_Zopp s (Z.pos p).
Proof.
  intros Hprec Hemax Hp. apply size_bound in Hp.
  rewrite <- digits2_size in Hp.
  unfold binary_round, shl_align.
  replace (fexp (Z.pos prec) emax (Z.pos (digits2_pos p) + 0) - 0)
    with (Z.pos (digits2_pos p) - Z.pos prec) by (unfold fexp, emin; lia).
  replace (fexp (Z.pos prec) emax (Z.pos (digits2_pos p) + 0))
    with (Z.pos (digits2_pos p) - Z.pos prec) by (unfold fexp, emin; lia).
  destruct (Z.pos (digits2_pos p) - Z.pos prec) as [|k|k] eqn:Ek; try lia.
  - rewrite binary_round_aux_full by lia.
    cbn [float_value]. now rewrite Z.mul_1_r.
  - rewrite binary_round_aux_full.
    + cbn [float_value]. f_equal.
      change (Pos.iter xO p k) with (shift_pos k p).
      rewrite shift_pos_correct.
      change (Z.pow_pos 2 k) with (2 ^ Z.pos k).
      rewrite Z.mul_comm. apply Z.div_mul. apply Z.pow_nonzero; lia.
    + rewrite digits2_shift. lia.
    + lia.
Qed.

Lemma float64_round_exact (z : Z) :
  exact_coordinate z -> float64_round z = z.
Proof.
  unfold exact_coordinate. intros Hz.
  assert (H24 : 2 ^ 24 < 2 ^ 53) by reflexivity.
  unfold float64_round. destruct z as [|p|p]; cbn [binary_normalize].
  - reflexivity.
  - apply (binary_round_small 53 1024 false); lia.
  - apply (binary_round_small 53 1024 true); lia.
Qed.

Lemma float32_round_exact (z : Z) :
  exact_coordinate z -> float32_round z = z.
Proof.
  unfold exact_coordinate. intros Hz.
  destruct (Z.eq_dec z (2 ^ 24)) as [->|H1]; [reflexivity|].
  destruct (Z.eq_dec z (- 2 ^ 24)) as [->|H2]; [reflexivity|].
  unfold float32_round. destruct z as [|p|p]; cbn [binary_normalize].
  - reflexivity.
  - apply (binary_round_small 24 128 false); lia.
  - apply (binary_round_small 24 128 true); lia.
Qed.

Lemma point2f_exact (p : point) : exact_point p -> point2f p = p.
Proof.
  destruct p as [x y]. unfold exact_point, point2f, px, py. cbn [fst snd].
  intros [Hx Hy].
  now rewrite (float64_round_exact x Hx), (float64_round_exact y Hy),
    (float32_round_exact x Hx), (float32_round_exact y Hy).
Qed.

Lemma pointPolygonTest_exact_cases (poly : polygon) (p : point) :
  exact_point p ->
  (on_boundary poly p /\ pointPolygonTest poly p = 0)
  \/ (~ on_boundary poly p /\ inside_even_odd poly p
      /\ pointPolygonTest poly p = 1)
  \/ (~ on_boundary poly p /\ ~ inside_even_odd poly p
      /\ pointPolygonTest poly p = -1).
Proof.
  intro Hp. pose proof (pointPolygonTest_cases poly p) as H.
  now rewrite (point2f_exact p Hp) in H.
Qed.

(** The two notions on the square of the specification: (5,5) is inside,
    (10,5) lies on the edge from (10,0) to (10,10), and (11,5) is neither
    inside nor on an edge. *)
Lemma square_examples :
  inside_even_odd square (5, 5)
  /\ on_boundary square (10, 5)
  /\ ~ inside_even_odd square (11, 5)
  /\ ~ on_boundary square (11, 5).
Proof.
  split; [reflexivity|]. split; [|split].
  - exists (10, 0), (10, 10). split.
    + right. left. reflexivity.
    + unfold on_segment, px, py. simpl. lia.
  - unfold inside_even_odd. simpl. discriminate.
  - intro H. apply found_iff_on_boundary in H. discriminate H.
Qed.

End GeometryFacts.

(** C1, as stated, fails outside the range in which the call converts its
    arguments exactly: the point (16777217, 5) lies on the left side of the
    square (16777217,0),(16777227,0),(16777227,10),(16777217,10), yet the
    test reports no hit, because the point tested is the nearest binary32
    point (16777216, 5), which is outside. *)
Lemma region_hit_tests_the_converted_point :
  Geometry.on_boundary Sample.far_square (16777217, 5)
  /\ Geometry.point2f (16777217, 5) = (16777216, 5)
  /\ Geometry.region_hit Sample.far_square (16777217, 5) = false.
Proof.
  split; [|split; reflexivity].
  exists (16777217, 10), (16777217, 0). split.
  - right. right. right. left. reflexivity.
  - unfold Geometry.on_segment, px, py. simpl. lia.
Qed.

(** C1, amended. For every polygon and every query point whose coordinates
    all lie between -2^24 and 2^24, the containment test of
    [create_overlay_image] ([pointPolygonTest(...) >= 0]) reports a hit
    exactly when the point lies on an edge of the closed polygon or inside
    it (odd number of edges met by the ray to its right); the value [0]
    stands for "on the boundary", so the boundary is included.  For the
    square (0,0),(10,0),(10,10),(0,10): (5,5) is a hit, the edge point (10,5)
    is a hit, and (11,5) is not. *)
Theorem region_hit_iff_inside_or_on_boundary :
  (forall poly p,
      Geometry.exact_polygon poly -> Geometry.exact_point p ->
      (Geometry.region_hit poly p = true <->
       Geometry.on_boundary poly p \/ Geometry.inside_even_odd poly p)
      /\ (Geometry.pointPolygonTest poly p = 0 <->
          Geometry.on_boundary poly p))
  /\ Geometry.region_hit Geometry.square (5, 5) = true
  /\ Geometry.region_hit Geometry.square (10, 5) = true
  /\ Geometry.region_hit Geometry.square (11, 5) = false.
Proof.
  split; [|repeat split; reflexivity].
  intros poly p _ Hp. split.
  - unfold Geometry.region_hit. rewrite Z.leb_le.
    destruct (pointPolygonTest_exact_cases poly p Hp)
      as [(Hb & ->)|[(Hb & Hi & ->)|(Hb & Hi & ->)]]; split;
      try tauto; try lia.
  - destruct (pointPolygonTest_exact_cases poly p Hp)
      as [(Hb & ->)|[(Hb & Hi & ->)|(Hb & Hi & ->)]]; split;
      try tauto; try discriminate.
Qed.

Lemma region_hit_iff_witness :
  Geometry.region_hit Geometry.square (10, 5) = true <->
  Geometry.on_boundary Geometry.square (10, 5)
  \/ Geometry.inside_even_odd Geometry.square (10, 5).
Proof.
  apply (proj1 region_hit_iff_inside_or_on_boundary Geometry.square (10, 5)).
  - repeat constructor; unfold Geometry.exact_coordinate; simpl; lia.
  - split; unfold Geometry.exact_coordinate; simpl; lia.
Defined.

(** ** Travel table *)

Section TravelFacts.

Import Travel.

Lemma contains_spec (name : string) (ft : flight_time) :
  contains name ft = true <->
  In name [origin ft; destination ft; duration ft].
Proof.
  unfold contains. rewrite !orb_true_iff, !String.eqb_eq. simpl.
  intuition congruence.
Qed.

Lemma entry_matches_comm (a b : string) (ft : flight_time) :
  entry_matches a b ft = entry_matches b a ft.
Proof. unfold entry_matches. apply andb_comm. Qed.

Lemma lookup_comm (a b : string) : lookup a b = lookup b a.
Proof.
  unfold lookup. apply filter_ext. intro ft. apply entry_matches_comm.
Qed.

Lemma lookup_In (a b : string) (ft : flight_time) :
  In ft (lookup a b) <->
  In ft flight_time_list /\ contains a ft = true /\ contains b ft = true.
Proof.
  unfold lookup. rewrite filter_In. unfold entry_matches.
  rewrite andb_true_iff. reflexivity.
Qed.

Lemma nonempty_In {A : Type} (l : list A) : l <> [] <-> exists x, In x l.
Proof.
  destruct l as [|x l]; split.
  - intro H. now contradiction H.
  - intros [x []].
  - intros _. exists x. now left.
  - discriminate.
Qed.

(** For names that are not themselves a duration label, membership in a
    row is membership in its pair of end points. *)
Lemma contains_end_points (name : string) (ft : flight_time) :
  name <> duration ft ->
  (contains name ft = true <-> In name [origin ft; destination ft]).
Proof.
  intro Hne. rewrite contains_spec. simpl. intuition congruence.
Qed.

End TravelFacts.

(** C5. The travel-info lookup does not depend on the order of its two
    names; it finds something exactly when some row of the table contains
    both names, a row being the list of its three elements (for names that
    are not a duration label of the table this is: both names are among the
    row's origin and destination); on the table of the program,
    ("USA","India") and ("India","USA") both give the row
    ["USA","India","14 hours"] and ("USA","Canada") gives nothing. *)
Theorem lookup_symmetric :
  (forall a b, Travel.lookup a b = Travel.lookup b a)
  /\ (forall a b,
        Travel.lookup a b <> [] <->
        exists ft, In ft Travel.flight_time_list
                   /\ In a [Travel.origin ft; Travel.destination ft;
                            Travel.duration ft]
                   /\ In b [Travel.origin ft; Travel.destination ft;
                            Travel.duration ft])
  /\ (forall a b,
        ~ In a (map Travel.duration Travel.flight_time_list) ->
        ~ In b (map Travel.duration Travel.flight_time_list) ->
        (Travel.lookup a b <> [] <->
         exists ft, In ft Travel.flight_time_list
                    /\ In a [Travel.origin ft; Travel.destination ft]
                    /\ In b [Travel.origin ft; Travel.destination ft]))
  /\ Travel.lookup "USA" "India" = [("USA", "India", "14 hours")%string]
  /\ Travel.lookup "India" "USA" = [("USA", "India", "14 hours")%string]
  /\ Travel.lookup "USA" "Canada" = [].
Proof.
  split; [exact lookup_comm|].
  split; [|split; [|repeat split; reflexivity]].
  - intros a b. rewrite nonempty_In.
    split; intros [ft H]; exists ft.
    + apply lookup_In in H. now rewrite <- !contains_spec.
    + apply lookup_In. now rewrite !contains_spec.
  - intros a b Ha Hb. rewrite nonempty_In.
    assert (Hd : forall n ft,
               ~ In n (map Travel.duration Travel.flight_time_list) ->
               In ft Travel.flight_time_list -> n <> Travel.duration ft).
    { intros n ft Hn Hft ->. apply Hn. now apply in_map. }
    split; intros [ft H]; exists ft.
    + apply lookup_In in H. destruct H as (Hft & Hca & Hcb).
      split; [exact Hft|].
      split; apply contains_end_points; auto.
    + destruct H as (Hft & Hia & Hib). apply lookup_In.
      split; [exact Hft|].
      split; apply contains_end_points; auto.
Qed.

Lemma lookup_symmetric_witness :
  Travel.lookup "China" "USA" <> [].
Proof.
  destruct lookup_symmetric as (_ & _ & H & _).
  apply (H "China"%string "USA"%string).
  - simpl. intuition discriminate.
  - simpl. intuition discriminate.
  - exists ("USA", "China", "15 hours")%string. simpl. intuition.
Defined.

(** ** The overlay loops *)

Section OverlayFacts.

Import Overlay.

Lemma region_hit_nil (pt : point) : Geometry.region_hit [] pt = false.
Proof. reflexivity. Qed.

Lemma highlight_hit (r : region) (pt : point) (img : canvas) :
  Geometry.region_hit (fst r) pt = true ->
  highlight r img = Ok (img ++ highlight_calls r).
Proof.
  destruct r as [[|first poly] name]; simpl.
  - rewrite region_hit_nil. discriminate.
  - reflexivity.
Qed.

Lemma mark_regions_eq (polygons : list region) (pt : point)
    (st : canvas * list string) :
  mark_regions polygons pt st =
  Ok (fst st ++ flat_map highlight_calls (matching_regions polygons pt),
      snd st ++ matching_names polygons pt).
Proof.
  revert st.
  induction polygons as [|[poly name] rest IH]; intros [img check].
  - simpl. now rewrite !app_nil_r.
  - unfold matching_names, matching_regions in *.
    cbn [mark_regions filter fst snd].
    destruct (Geometry.region_hit poly pt) eqn:Hhit.
    + rewrite (highlight_hit (poly, name) pt img Hhit). cbn [bind].
      rewrite IH. cbn [fst snd flat_map map].
      now rewrite <- !app_assoc.
    + apply IH.
Qed.


Lemma mark_points_pair (polygons : list region) (p1 p2 : point)
    (img : canvas) :
  mark_points polygons [p1; p2] (img, []) =
  Ok (img ++ flat_map highlight_calls (matching_regions polygons p1)
          ++ flat_map highlight_calls (matching_regions polygons p2),
      matching_names polygons p1 ++ matching_names polygons p2).
Proof.
  cbn [mark_points]. rewrite mark_regions_eq. cbn [bind].
  rewrite mark_regions_eq. cbn [bind fst snd app].
  now rewrite <- app_assoc.
Qed.

Lemma overlay_and_check_eq (polygons : list region) (p1 p2 : point)
    (img : canvas) :
  overlay_and_check polygons p1 p2 img =
  let check := matching_names polygons p1 ++ matching_names polygons p2 in
  Ok (connect p1 p2 check
        (img ++ flat_map highlight_calls (matching_regions polygons p1)
             ++ flat_map highlight_calls (matching_regions polygons p2)),
      check).
Proof. unfold overlay_and_check. now rewrite mark_points_pair. Qed.




End OverlayFacts.



(** C2, as stated, fails: the first point lies in two overlapping regions and
    the second in a third one, so each point has a match and the table has a
    row for the two first matches, yet [check] has three names and neither
    the line nor any travel text is drawn. *)
Lemma line_needs_exactly_two_matches :
  hd_error (Overlay.matching_names Sample.three_regions (7, 7)) = Some "USA"%string
  /\ hd_error (Overlay.matching_names Sample.three_regions (25, 5))
     = Some "India"%string
  /\ Travel.lookup "USA" "India" <> []
  /\ exists img,
       Overlay.create_overlay_image Sample.three_regions
         (Overlay.Pair (7, 7) (25, 5)) [] = Ok img
       /\ ~ In (Overlay.Line (7, 7) (25, 5) Overlay.green 10) img
       /\ forall ft, ~ In (Overlay.PutTextRect (Travel.duration ft)
                             (0, 200) 8 5) img.
Proof.
  split; [reflexivity|]. split; [reflexivity|]. split; [discriminate|].
  eexists. split; [vm_compute; reflexivity|].
  split.
  - intro H. simpl in H. intuition discriminate.
  - intros ft H. simpl in H.
    repeat (destruct H as [H|H]; [discriminate H|]). exact H.
Qed.

(** C2, amended. In the two-point case, whenever each of the two canonical
    points resolves to exactly one matched region, the compositor draws the
    two highlights, then the connecting line between the two points, then the
    text of every table row found by the lookup on the name matched by the
    first point and the name matched by the second; the lookup does not
    depend on the order of the two names. *)
Theorem line_and_lookup_for_two_single_matches
    (polygons : list Overlay.region) (p1 p2 : point) (a b : string)
    (imgOverlay : Overlay.canvas) :
  Overlay.matching_names polygons p1 = [a] ->
  Overlay.matching_names polygons p2 = [b] ->
  let drawn :=
    imgOverlay
      ++ flat_map Overlay.highlight_calls (Overlay.matching_regions polygons p1)
      ++ flat_map Overlay.highlight_calls (Overlay.matching_regions polygons p2)
      ++ [Overlay.Line p1 p2 Overlay.green 10]
      ++ flat_map Overlay.flight_text (Travel.lookup a b) in
  Overlay.overlay_and_check polygons p1 p2 imgOverlay = Ok (drawn, [a; b])
  /\ Overlay.create_overlay_image polygons (Overlay.Pair p1 p2) imgOverlay
     = Ok drawn
  /\ Travel.lookup a b = Travel.lookup b a.
Proof.
  intros H1 H2 drawn.
  assert (E : Overlay.overlay_and_check polygons p1 p2 imgOverlay
              = Ok (drawn, [a; b])).
  { rewrite overlay_and_check_eq. rewrite H1, H2. cbn [app Overlay.connect].
    unfold drawn. now rewrite <- !app_assoc. }
  split; [exact E|]. split; [|apply lookup_comm].
  cbn [Overlay.create_overlay_image]. now rewrite E.
Qed.

Lemma line_and_lookup_witness :
  exists img,
    Overlay.create_overlay_image Sample.two_regions (Overlay.Pair (5, 5) (25, 5)) []
    = Ok img
    /\ In (Overlay.Line (5, 5) (25, 5) Overlay.green 10) img
    /\ In (Overlay.PutTextRect "14 hours" (0, 200) 8 5) img.
Proof.
  eexists. split.
  - apply (line_and_lookup_for_two_single_matches Sample.two_regions (5, 5) (25, 5)
             "USA" "India" []); reflexivity.
  - split; vm_compute; intuition.
Defined.




(** ** Perspective division and truncation *)

Section FloatFacts.

Import Homography.

Lemma Qtruncate_inject_Z (n : Z) : Qtruncate (inject_Z n) = n.
Proof.
  unfold Qtruncate. destruct (Qle_bool 0 (inject_Z n)).
  - apply Qfloor_Z.
  - apply Qceiling_Z.
Qed.

Lemma Qtruncate_pos (m d : positive) :
  Qtruncate (Qmake (Z.pos m) d) = Z.pos m / Z.pos d.
Proof. reflexivity. Qed.

Lemma Qtruncate_neg (m d : positive) :
  Qtruncate (Qmake (Z.neg m) d) = - (Z.pos m / Z.pos d).
Proof. reflexivity. Qed.

Lemma cond_Zopp_mul (s : bool) (a b : Z) :
  cond_Zopp s (a * b) = cond_Zopp s a * b.
Proof. destruct s; cbn [cond_Zopp]; lia. Qed.

Lemma int_of_float_value (x : float) :
  is_finite x = true -> int_of_float x = Ok (Qtruncate (value x)).
Proof.
  destruct x as [s|s| |s m e]; try discriminate; intros _.
  - reflexivity.
  - cbn [int_of_float value]. f_equal. destruct e as [|k|k].
    + now rewrite Qtruncate_inject_Z, cond_Zopp_mul.
    + now rewrite Qtruncate_inject_Z, cond_Zopp_mul.
    + destruct s; cbn [cond_Zopp Z.opp].
      * now rewrite Qtruncate_neg, Pos2Z.inj_pow.
      * now rewrite Qtruncate_pos, Pos2Z.inj_pow.
Qed.

Lemma int_of_float_truncates (x : float) (z : Z) :
  int_of_float x = Ok z -> z = Qtruncate (value x).
Proof.
  intro H. destruct (is_finite x) eqn:Hf.
  - rewrite (int_of_float_value x Hf) in H. congruence.
  - destruct x; try discriminate.
Qed.




Lemma warp_single_point_unfold (pt : point) (m : matrix) :
  warp_single_point pt m =
  (a <- int_of_float
          (fdiv (fst (fst (point_homogeneous_transformed m pt)))
                (snd (point_homogeneous_transformed m pt))) ;;
   b <- int_of_float
          (fdiv (snd (fst (point_homogeneous_transformed m pt)))
                (snd (point_homogeneous_transformed m pt))) ;;
   Ok (a, b)).
Proof.
  unfold warp_single_point.
  now destruct (point_homogeneous_transformed m pt) as [[h0 h1] w].
Qed.

End FloatFacts.




(** ** Blending the overlay onto the camera frame *)

Section BlendFacts.

Import Blend.

Lemma zip_with_nth_error {A B C : Type} (f : A -> B -> C)
    (l : list A) (l' : list B) (n : nat) :
  nth_error (zip_with f l l') n =
  match nth_error l n, nth_error l' n with
  | Some a, Some b => Some (f a b)
  | _, _ => None
  end.
Proof.
  revert l l'. induction n as [|n IH]; intros [|a l] [|b l']; simpl;
    try reflexivity.
  - now destruct (nth_error l n).
  - apply IH.
Qed.

Lemma addWeighted_pixel_at (src1 src2 : image) (r c : nat) (p q : pixel) :
  pixel_at src1 r c = Some p ->
  pixel_at src2 r c = Some q ->
  pixel_at (addWeighted src1 src2) r c = Some (addWeighted_pixel p q).
Proof.
  unfold pixel_at, addWeighted. rewrite zip_with_nth_error.
  destruct (nth_error src1 r) as [row1|]; [|discriminate].
  destruct (nth_error src2 r) as [row2|]; [|discriminate].
  rewrite zip_with_nth_error. now intros -> ->.
Qed.

Lemma range256_In (z : Z) : uint8 z -> In z range256.
Proof.
  intros [H0 H255]. unfold range256.
  rewrite <- (Z2Nat.id z H0). apply in_map. apply in_seq. lia.
Qed.

(** All 256 x 256 pairs of channel values, by computation. *)
Lemma weighted_sum_table :
  forallb (fun a => forallb (weighted_sum_test a) range256) range256 = true.
Proof. vm_compute. reflexivity. Qed.

Lemma weighted_sum_test_ok (a b : Z) :
  uint8 a -> uint8 b -> weighted_sum_test a b = true.
Proof.
  intros Ha Hb.
  pose proof weighted_sum_table as H.
  rewrite forallb_forall in H. specialize (H a (range256_In a Ha)).
  rewrite forallb_forall in H. exact (H b (range256_In b Hb)).
Qed.

Lemma addWeighted_channel_spec (a b : Z) :
  uint8 a -> uint8 b ->
  weighted_sum a b (addWeighted_channel a b)
  /\ a <= addWeighted_channel a b <= 255
  /\ (b = 0 -> addWeighted_channel a b = a).
Proof.
  intros Ha Hb. pose proof (weighted_sum_test_ok a b Ha Hb) as H.
  unfold weighted_sum_test in H.
  set (v := addWeighted_channel a b) in *.
  apply andb_true_iff in H as [H Hzero].
  apply andb_true_iff in H as [Hle Hnear].
  apply Z.leb_le in Hle.
  destruct (Z.ltb_spec v 255) as [Hlt|Hge].
  - apply Z.leb_le in Hnear.
    split; [|split].
    + exists v. split; [exact Hnear|lia].
    + lia.
    + intros ->. rewrite Z.eqb_refl in Hzero. now apply Z.eqb_eq.
  - apply andb_true_iff in Hnear as [Hv Hx].
    apply Z.eqb_eq in Hv. apply Z.leb_le in Hx.
    split; [|split].
    + exists ((100 * a + 65 * b + 50) / 100). split.
      * pose proof (Z.div_mod (100 * a + 65 * b + 50) 100 ltac:(lia)).
        pose proof (Z.mod_pos_bound (100 * a + 65 * b + 50) 100 ltac:(lia)).
        lia.
      * assert (255 <= (100 * a + 65 * b + 50) / 100)
          by (apply Z.div_le_lower_bound; lia).
        lia.
    + lia.
    + intros ->. rewrite Z.eqb_refl in Hzero. now apply Z.eqb_eq.
Qed.

End BlendFacts.

(** C7. [inverse_warp_image] keeps the camera frame and adds the overlay to
    it: at every pixel position the result is, channel by channel, the camera
    value at full weight plus 0.65 times the value of the inverse-warped
    overlay, taken to a nearest integer and cut off at 255.  The result is
    never below the camera value, and where the warped overlay is zero the
    camera pixel comes out unchanged. *)
Theorem overlay_is_added_to_camera_frame
    (getPerspectiveTransform : list point -> list point -> Homography.matrix)
    (warpPerspective : Blend.image -> Homography.matrix -> Z * Z -> Blend.image)
    (img imgOverlay : Blend.image) (map_points : list point) (r c : nat)
    (a0 a1 a2 b0 b1 b2 : Z) :
  Blend.pixel_at img r c = Some (a0, a1, a2) ->
  Blend.pixel_at
    (Blend.warped_overlay getPerspectiveTransform warpPerspective
       img imgOverlay map_points) r c = Some (b0, b1, b2) ->
  Forall Blend.uint8 [a0; a1; a2; b0; b1; b2] ->
  exists v0 v1 v2,
    Blend.pixel_at
      (Blend.inverse_warp_image getPerspectiveTransform warpPerspective
         img imgOverlay map_points) r c = Some (v0, v1, v2)
    /\ Blend.weighted_sum a0 b0 v0
    /\ Blend.weighted_sum a1 b1 v1
    /\ Blend.weighted_sum a2 b2 v2
    /\ a0 <= v0 <= 255 /\ a1 <= v1 <= 255 /\ a2 <= v2 <= 255
    /\ ((b0, b1, b2) = (0, 0, 0) -> (v0, v1, v2) = (a0, a1, a2)).
Proof.
  intros Hcam Hov Hrange.
  repeat match goal with
         | H : Forall _ (_ :: _) |- _ =>
             let Hx := fresh "Hu" in
             apply Forall_cons_iff in H as [Hx H]
         end.
  destruct (addWeighted_channel_spec a0 b0) as (S0 & L0 & Z0'); try assumption.
  destruct (addWeighted_channel_spec a1 b1) as (S1 & L1 & Z1'); try assumption.
  destruct (addWeighted_channel_spec a2 b2) as (S2 & L2 & Z2'); try assumption.
  exists (Blend.addWeighted_channel a0 b0), (Blend.addWeighted_channel a1 b1),
         (Blend.addWeighted_channel a2 b2).
  split.
  - unfold Blend.inverse_warp_image.
    now rewrite (addWeighted_pixel_at _ _ r c _ _ Hcam Hov).
  - repeat (split; [assumption|]).
    intros [= -> -> ->]. now rewrite Z0', Z1', Z2'.
Qed.

Lemma overlay_is_added_witness :
  exists v,
    Blend.pixel_at
      (Blend.inverse_warp_image Sample.no_transform Sample.no_resample
         Sample.frame Sample.green_patch Sample.corners) 0 1 = Some v
    /\ v = (40, 216, 60).
Proof.
  destruct (overlay_is_added_to_camera_frame Sample.no_transform
              Sample.no_resample Sample.frame Sample.green_patch
              Sample.corners 0 1 40 50 60 0 255 0)
    as (v0 & v1 & v2 & Hp & _).
  - reflexivity.
  - reflexivity.
  - repeat constructor; unfold Blend.uint8; lia.
  - exists (v0, v1, v2). split; [exact Hp|].
    vm_compute in Hp. congruence.
Defined.

(** ** The frame loop of [flight_time.py] *)

(** C6. In a frame in which no hand is detected, [get_finger_location]
    yields no point, the overlay canvas stays the blank canvas it was created
    as, and the frame shown in the output window is the camera frame itself:
    nothing is composited onto it. *)
Theorem no_hands_no_overlay
    (getPerspectiveTransform : list point -> list point -> Homography.matrix)
    (warpPerspective : Blend.image -> Homography.matrix -> Z * Z -> Blend.image)
    (findHands : Blend.image -> list FrameLoop.hand)
    (paint : Blend.image -> Overlay.canvas -> Blend.image)
    (p0 p1 p2 p3 : point) (polygons : list Overlay.region)
    (success : bool) (img : Blend.image) :
  findHands img = [] ->
  let map_points := [p0; p1; p2; p3] in
  (forall matrix, FrameLoop.get_finger_location [] matrix = Ok (None, []))
  /\ FrameLoop.iteration getPerspectiveTransform warpPerspective findHands
       paint map_points polygons success (Some img)
     = ([ Trace.WarpImage (Some img) map_points;
          Trace.FindHands img;
          Trace.Imshow "Output Image" img;
          Trace.WaitKey 1 ],
        Ok {| FrameLoop.warped_point_of := None;
              FrameLoop.imgOverlay_of := [];
              FrameLoop.imgOutput_of := img |}).
Proof.
  intros Hnone map_points. split; [reflexivity|].
  unfold FrameLoop.iteration, map_points. cbn. rewrite Hnone. reflexivity.
Qed.

Lemma no_hands_no_overlay_witness :
  Trace.outcome
    (FrameLoop.iteration Sample.no_transform Sample.no_resample
       Sample.no_hands Sample.no_paint Sample.corners [] true
       (Some Sample.frame))
  = Ok {| FrameLoop.warped_point_of := None;
          FrameLoop.imgOverlay_of := [];
          FrameLoop.imgOutput_of := Sample.frame |}.
Proof.
  exact (f_equal snd
           (proj2 (no_hands_no_overlay Sample.no_transform Sample.no_resample
                     Sample.no_hands Sample.no_paint (1, 2) (30, 4) (5, 60)
                     (70, 80) [] true Sample.frame eq_refl))).
Defined.

(** C8 at the failing input [cap.read() = (False, None)]: [flight_time.py]
    never tests [success]; it calls [warp_image] on the missing frame and
    dies of the exception without a log line.  [get_map.py] tests [success]
    only after the block under [if counter == 4:], so once four points are
    collected it writes the file and calls [warp_image] on the missing frame,
    and dies there, before "Failed to capture image" can be printed. *)
Theorem failed_capture_is_processed
    (getPerspectiveTransform : list point -> list point -> Homography.matrix)
    (warpPerspective : Blend.image -> Homography.matrix -> Z * Z -> Blend.image)
    (findHands : Blend.image -> list FrameLoop.hand)
    (paint : Blend.image -> Overlay.canvas -> Blend.image)
    (polygons : list Overlay.region)
    (events : list (Z * Z * Z)) (key : Z) :
  FrameLoop.iteration getPerspectiveTransform warpPerspective findHands
    paint Sample.corners polygons false None
  = ([Trace.WarpImage None Sample.corners], Raise CvError)
  /\ Authoring.iteration getPerspectiveTransform warpPerspective paint
       (Authoring.deliver_all Authoring.initial Sample.four_clicks)
       false None events key
     = ([ Trace.Dump "map.p" Sample.corners;
          Trace.Print "Points saved to file: map.p";
          Trace.WarpImage None Sample.corners ], Raise CvError).
Proof. split; reflexivity. Qed.

(** ** The authoring tool *)

Section AuthoringFacts.

Import Authoring.

Lemma set_row_app (l1 l2 : list point) (x v : point) :
  set_row (l1 ++ x :: l2) (List.length l1) v = Ok (l1 ++ v :: l2).
Proof.
  induction l1 as [|a l1 IH]; simpl.
  - reflexivity.
  - now rewrite IH.
Qed.

Lemma set_row_past (rows : list point) (i : nat) (v : point) :
  (List.length rows <= i)%nat -> set_row rows i v = Raise IndexError.
Proof.
  revert i. induction rows as [|r rows IH]; intros i Hi; simpl.
  - reflexivity.
  - destruct i as [|i]; simpl in Hi; [lia|].
    rewrite IH by lia. reflexivity.
Qed.

Lemma deliver_press (cl : list point) (x y : Z) :
  deliver (after_presses cl) (EVENT_LBUTTONDOWN, x, y)
  = after_presses (cl ++ [(x, y)]).
Proof.
  unfold deliver, mousePoints. rewrite Z.eqb_refl.
  unfold after_presses. cbn [points counter].
  rewrite length_app. cbn [List.length].
  destruct (Nat.lt_ge_cases (List.length cl) 4) as [Hlt|Hge].
  - rewrite !firstn_all2 by (rewrite ?length_app; simpl; lia).
    replace (4 - List.length cl)%nat with (S (3 - List.length cl)) by lia.
    cbn [repeat]. rewrite Nat.min_l by lia. rewrite set_row_app.
    cbn [bind]. rewrite <- app_assoc. cbn [app].
    replace (4 - (List.length cl + 1))%nat with (3 - List.length cl)%nat
      by lia.
    replace (Nat.min (List.length cl + 1) 4) with (S (List.length cl))
      by lia.
    reflexivity.
  - rewrite set_row_past.
    + rewrite firstn_app.
      replace (4 - List.length cl)%nat with 0%nat by lia.
      replace (4 - (List.length cl + 1))%nat with 0%nat by lia.
      cbn [firstn repeat]. rewrite !app_nil_r.
      rewrite !Nat.min_r by lia. reflexivity.
    + rewrite length_app, length_firstn, repeat_length. lia.
Qed.

Lemma deliver_other (s : tool) (event x y : Z) :
  event <> EVENT_LBUTTONDOWN -> deliver s (event, x, y) = s.
Proof.
  intro H. unfold deliver, mousePoints.
  now rewrite (proj2 (Z.eqb_neq _ _) H).
Qed.

Lemma deliver_all_presses (cl : list point) (evs : list (Z * Z * Z)) :
  deliver_all (after_presses cl) evs = after_presses (cl ++ presses evs).
Proof.
  revert cl. induction evs as [|[[event x] y] evs IH]; intro cl.
  - unfold presses. simpl. now rewrite app_nil_r.
  - unfold deliver_all in *. cbn [fold_left].
    unfold presses. cbn [filter fst snd].
    destruct (Z.eqb_spec event EVENT_LBUTTONDOWN) as [->|Hne].
    + rewrite deliver_press, IH. cbn [map fst snd].
      now rewrite <- app_assoc.
    + rewrite deliver_other by assumption. apply IH.
Qed.

Lemma initial_after_presses : initial = after_presses [].
Proof. reflexivity. Qed.

Lemma after_presses_length (cl : list point) :
  List.length (points (after_presses cl)) = 4%nat.
Proof.
  unfold after_presses. cbn [points].
  rewrite length_app, length_firstn, repeat_length. lia.
Qed.

Variable getPerspectiveTransform :
  list point -> list point -> Homography.matrix.
Variable warpPerspective :
  Blend.image -> Homography.matrix -> Z * Z -> Blend.image.
Variable paint : Blend.image -> Overlay.canvas -> Blend.image.

Lemma four_rows (rows : list point) :
  List.length rows = 4%nat ->
  exists a b c d, rows = [a; b; c; d].
Proof.
  destruct rows as [|a [|b [|c [|d [|e rows]]]]]; try discriminate.
  intros _. now exists a, b, c, d.
Qed.

Lemma seq_calls {A B : Type} (m : Trace.prog A) (k : A -> Trace.prog B)
    (t : list Trace.call) (a : A) :
  m = (t, Ok a) ->
  Trace.seq m k = (t ++ fst (k a), snd (k a)).
Proof. intros ->. unfold Trace.seq. now destruct (k a). Qed.

(** A turn with a captured frame: the file is written exactly when the
    turn starts with [counter = 4]; the globals only change through the
    delivered events. *)
Lemma turn_dumps (s : tool) (im : Blend.image) (evs : list (Z * Z * Z))
    (key : Z) :
  List.length (points s) = 4%nat ->
  dumps (Trace.calls
           (iteration getPerspectiveTransform warpPerspective paint
              s true (Some im) evs key))
  = (if (counter s =? 4)%nat then [Trace.Dump "map.p" (points s)] else [])
  /\ Trace.outcome
       (iteration getPerspectiveTransform warpPerspective paint
          s true (Some im) evs key)
     = Ok (if Z.land key 255 =? 113 then Break else Continue,
           deliver_all s evs).
Proof.
  intro Hlen. destruct (four_rows _ Hlen) as (a & b & c & d & Hrows).
  unfold iteration. rewrite Hrows.
  destruct (counter s =? 4)%nat; destruct (Z.land key 255 =? 113);
    split; reflexivity.
Qed.

Lemma after_presses_full (cl more : list point) :
  (4 <= List.length cl)%nat ->
  after_presses (cl ++ more) = after_presses cl.
Proof.
  intro H. unfold after_presses. rewrite length_app, firstn_app.
  replace (4 - List.length cl)%nat with 0%nat by lia.
  replace (4 - (List.length cl + List.length more))%nat with 0%nat by lia.
  cbn [firstn]. rewrite !app_nil_r, !Nat.min_r by lia. reflexivity.
Qed.

Lemma full_is_stable (cl : list point) (evs : list (Z * Z * Z)) :
  (4 <= List.length cl)%nat ->
  deliver_all (after_presses cl) evs = after_presses cl.
Proof.
  intro H. rewrite deliver_all_presses. now apply after_presses_full.
Qed.

Lemma run_dumps_when_full (cl : list point)
    (script : list (bool * option Blend.image * list (Z * Z * Z) * Z)) :
  (4 <= List.length cl)%nat ->
  Forall captured script ->
  dumps (fst (run getPerspectiveTransform warpPerspective paint
                (after_presses cl) script))
  = repeat (Trace.Dump "map.p" (points (after_presses cl)))
           (List.length script).
Proof.
  intros Hfull Hall.
  induction Hall as [|[[[success img] evs] key] script Hc _ IH].
  - reflexivity.
  - destruct Hc as (-> & [im ->] & Hkey).
    pose proof (turn_dumps (after_presses cl) im evs key
                  (after_presses_length cl)) as [Hd Ho].
    cbn [run].
    destruct (iteration getPerspectiveTransform warpPerspective paint
                (after_presses cl) true (Some im) evs key) as [t r].
    unfold Trace.calls, Trace.outcome in Hd, Ho. cbn [fst snd] in Hd, Ho.
    subst r. rewrite (proj2 (Z.eqb_neq _ _) Hkey).
    rewrite full_is_stable by assumption.
    destruct (run getPerspectiveTransform warpPerspective paint
                (after_presses cl) script) as [t' s''].
    cbn [fst] in *. unfold dumps in *. rewrite filter_app, Hd, IH.
    unfold after_presses at 1. cbn [counter].
    rewrite Nat.min_r by lia. reflexivity.
Qed.

End AuthoringFacts.

(** C9, as stated, fails: the handler writes no file, and the loop writes the
    file at the start of every turn that begins with four points collected.
    In the turn in which the fourth press arrives nothing has been written;
    after two more turns the file has been written twice. *)
Lemma points_saved_on_every_turn :
  Authoring.dumps
    (fst (Authoring.run Sample.no_transform Sample.no_resample Sample.no_paint
            Authoring.initial
            [ (true, Some Sample.frame, Sample.four_clicks, 0) ]))
  = []
  /\ Authoring.dumps
       (fst (Authoring.run Sample.no_transform Sample.no_resample
               Sample.no_paint Authoring.initial
               [ (true, Some Sample.frame, Sample.four_clicks, 0);
                 (true, Some Sample.frame, [], 0);
                 (true, Some Sample.frame, [], 0) ]))
     = [ Trace.Dump "map.p" Sample.corners;
         Trace.Dump "map.p" Sample.corners ].
Proof. split; reflexivity. Qed.

(** C9, amended. The mouse-click handler accumulates exactly four points:
    after any sequence of mouse events the array still has four rows, holding
    the first four left-button presses in order (zero rows where none has
    arrived yet), and [counter] is the number of presses capped at four;
    presses beyond the fourth change neither the array nor the counter.  The
    four points are written to "map.p" by the loop, not by the handler: every
    turn that starts once four points are collected writes them again, so a
    run of [n] such turns writes the same four points [n] times. *)
Theorem four_points_then_saved_each_turn
    (getPerspectiveTransform : list point -> list point -> Homography.matrix)
    (warpPerspective : Blend.image -> Homography.matrix -> Z * Z -> Blend.image)
    (paint : Blend.image -> Overlay.canvas -> Blend.image)
    (evs : list (Z * Z * Z)) :
  let s := Authoring.deliver_all Authoring.initial evs in
  let n := List.length (Authoring.presses evs) in
  Authoring.points s
    = firstn 4 (Authoring.presses evs) ++ repeat (0, 0) (4 - n)
  /\ Authoring.counter s = Nat.min n 4
  /\ List.length (Authoring.points s) = 4%nat
  /\ (forall more, (4 <= n)%nat -> Authoring.deliver_all s more = s)
  /\ (forall im evs' key,
        Authoring.dumps
          (Trace.calls
             (Authoring.iteration getPerspectiveTransform warpPerspective
                paint s true (Some im) evs' key))
        = if (4 <=? n)%nat then [Trace.Dump "map.p" (Authoring.points s)]
          else [])
  /\ (forall script, (4 <= n)%nat -> Forall Authoring.captured script ->
        Authoring.dumps
          (fst (Authoring.run getPerspectiveTransform warpPerspective paint
                  s script))
        = repeat (Trace.Dump "map.p" (Authoring.points s))
                 (List.length script)).
Proof.
  intros s n.
  assert (Hs : s = Authoring.after_presses (Authoring.presses evs)).
  { unfold s. rewrite initial_after_presses, deliver_all_presses.
    reflexivity. }
  rewrite Hs. fold n.
  split; [reflexivity|]. split; [reflexivity|].
  split; [apply after_presses_length|].
  split; [intros more Hn; now apply full_is_stable|].
  split.
  - intros im evs' key.
    rewrite (proj1 (turn_dumps getPerspectiveTransform warpPerspective paint
                      _ im evs' key (after_presses_length _))).
    unfold Authoring.after_presses at 1. cbn [Authoring.counter]. fold n.
    destruct (Nat.leb_spec 4 n) as [Hle|Hlt].
    + rewrite Nat.min_r by lia. reflexivity.
    + rewrite Nat.min_l by lia.
      now rewrite (proj2 (Nat.eqb_neq n 4)) by lia.
  - intros script Hn Hall. now apply run_dumps_when_full.
Qed.

Lemma four_points_then_saved_each_turn_witness :
  Authoring.points
    (Authoring.deliver_all Authoring.initial
       (Sample.four_clicks ++ [Sample.click 9 9]))
  = Sample.corners
  /\ Authoring.dumps
       (fst (Authoring.run Sample.no_transform Sample.no_resample
               Sample.no_paint
               (Authoring.deliver_all Authoring.initial
                  (Sample.four_clicks ++ [Sample.click 9 9]))
               [ (true, Some Sample.frame, [], 0);
                 (true, Some Sample.frame, [], 0) ]))
     = [ Trace.Dump "map.p" Sample.corners;
         Trace.Dump "map.p" Sample.corners ].
Proof.
  pose proof (four_points_then_saved_each_turn Sample.no_transform
                Sample.no_resample Sample.no_paint
                (Sample.four_clicks ++ [Sample.click 9 9]))
    as (Hp & _ & _ & _ & _ & Hrun).
  split.
  - rewrite Hp. reflexivity.
  - rewrite Hrun.
    + rewrite Hp. reflexivity.
    + simpl. lia.
    + repeat constructor; try (eexists; reflexivity); discriminate.
Defined.

(** * Further properties *)

(** ** More on region containment *)

Section GeometryMore.

Import Geometry.

Lemma scan_perm (p : point) (E E' : list (point * point)) :
  Permutation E E' ->
  existsb (edge_found p) E = existsb (edge_found p) E'
  /\ List.length (filter (edge_counted p) E)
     = List.length (filter (edge_counted p) E').
Proof.
  intro Hperm. split.
  - apply eq_true_iff_eq. rewrite !existsb_exists.
    split; intros (e & Hin & He); exists e; split; try assumption.
    + now apply (Permutation_in _ Hperm).
    + now apply (Permutation_in _ (Permutation_sym Hperm)).
  - apply Permutation_length.
    induction Hperm; simpl.
    + constructor.
    + destruct (edge_counted p x); [now constructor|assumption].
    + destruct (edge_counted p x), (edge_counted p y);
        try apply perm_swap; try apply Permutation_refl.
    + eapply Permutation_trans; eassumption.
Qed.

(** The test only looks at the set of edges (with multiplicity). *)
Lemma pointPolygonTest_edges (poly poly' : polygon) (p : point) :
  Permutation (polygon_edges poly) (polygon_edges poly') ->
  pointPolygonTest poly p = pointPolygonTest poly' p.
Proof.
  intro Hperm. rewrite !pointPolygonTest_eq.
  destruct (scan_perm (point2f p) _ _ Hperm) as [Hex Hlen].
  destruct poly as [|v cnt], poly' as [|v' cnt'].
  - reflexivity.
  - apply Permutation_length in Hperm. simpl in Hperm.
    rewrite length_app in Hperm. simpl in Hperm. lia.
  - apply Permutation_length in Hperm. simpl in Hperm.
    rewrite length_app in Hperm. simpl in Hperm. lia.
  - now rewrite Hex, Hlen.
Qed.

Lemma consecutive_app (a b : point) (l1 l2 : list point) :
  consecutive ((a :: l1) ++ b :: l2)
  = consecutive (a :: l1) ++ (last (a :: l1) a, b) :: consecutive (b :: l2).
Proof.
  revert a. induction l1 as [|c l1 IH]; intro a.
  - reflexivity.
  - change (consecutive ((a :: c :: l1) ++ b :: l2))
      with ((a, c) :: consecutive ((c :: l1) ++ b :: l2)).
    rewrite IH.
    change (consecutive (a :: c :: l1)) with ((a, c) :: consecutive (c :: l1)).
    change (last (a :: c :: l1) a) with (last (c :: l1) a).
    now rewrite (last_cons_default c l1 a c).
Qed.

Lemma last_app_cons (l1 l2 : list point) (b d : point) :
  last (l1 ++ b :: l2) d = last (b :: l2) d.
Proof.
  induction l1 as [|a l1 IH]; [reflexivity|].
  cbn [app]. destruct (l1 ++ b :: l2) as [|c l] eqn:E.
  - now destruct l1.
  - cbn [last]. cbn [last] in IH. exact IH.
Qed.

Lemma polygon_edges_app (a b : point) (l1 l2 : list point) :
  polygon_edges ((a :: l1) ++ b :: l2)
  = consecutive (a :: l1) ++ (last (a :: l1) a, b)
      :: consecutive (b :: l2) ++ [(last (b :: l2) b, a)].
Proof.
  unfold polygon_edges.
  change ((a :: l1) ++ b :: l2) with (a :: (l1 ++ b :: l2)) at 1.
  cbv iota. rewrite consecutive_app.
  rewrite (last_app_cons (a :: l1) l2 b a).
  rewrite (last_cons_default b l2 a b).
  now rewrite <- app_assoc.
Qed.

Lemma polygon_edges_rotate (l1 l2 : list point) :
  Permutation (polygon_edges (l1 ++ l2)) (polygon_edges (l2 ++ l1)).
Proof.
  destruct l1 as [|a l1]; [now rewrite app_nil_r|].
  destruct l2 as [|b l2]; [now rewrite app_nil_r|].
  rewrite !polygon_edges_app.
  set (c1 := consecutive (a :: l1)). set (c2 := consecutive (b :: l2)).
  set (e1 := (last (a :: l1) a, b)). set (e2 := (last (b :: l2) b, a)).
  change (Permutation (c1 ++ [e1] ++ c2 ++ [e2]) (c2 ++ [e2] ++ c1 ++ [e1])).
  replace (c1 ++ [e1] ++ c2 ++ [e2]) with ((c1 ++ [e1]) ++ (c2 ++ [e2]))
    by now rewrite <- app_assoc.
  replace (c2 ++ [e2] ++ c1 ++ [e1]) with ((c2 ++ [e2]) ++ (c1 ++ [e1]))
    by now rewrite <- app_assoc.
  apply Permutation_app_comm.
Qed.

End GeometryMore.

(** X1. The containment test does not depend on which vertex the polygon's
    vertex list starts with: moving any leading part of the list to its end
    gives the same result for every point. *)
Theorem pointPolygonTest_rotation (l1 l2 : polygon) (p : point) :
  Geometry.pointPolygonTest (l2 ++ l1) p = Geometry.pointPolygonTest (l1 ++ l2) p.
Proof.
  apply pointPolygonTest_edges. apply polygon_edges_rotate.
Qed.

Section GeometryReverse.

Import Geometry.








Lemma on_segment_sym (a b p : point) : on_segment a b p -> on_segment b a p.
Proof.
  unfold on_segment. intros (Hc & Hx & Hy).
  repeat split; try lia.
Qed.


Lemma ray_crosses_Z (p a b : point) :
  ray_crosses p (a, b) = true <->
  straddles a b (py p) = true
  /\ (if 0 <? py b - py a
      then (px p - px a) * (py b - py a) < (py p - py a) * (px b - px a)
      else (py p - py a) * (px b - px a) < (px p - px a) * (py b - py a)).
Proof.
  unfold ray_crosses. rewrite andb_true_iff, negb_Qle_bool.
  split; intros [Hs H]; (split; [exact Hs|]);
    assert (Hd : py b - py a <> 0)
      by (unfold straddles in Hs; reflect_bools; lia);
    unfold edge_x_at in *;
    change (inject_Z (py p - py a) * inject_Z (px b - px a))%Q
      with (inject_Z ((py p - py a) * (px b - px a))) in *;
    now apply (x_at_gt _ _ _ _ Hd).
Qed.

Lemma ray_crosses_sym (p a b : point) :
  ray_crosses p (b, a) = ray_crosses p (a, b).
Proof.
  apply eq_true_iff_eq. rewrite !ray_crosses_Z.
  assert (Hs : straddles b a (py p) = straddles a b (py p))
    by (unfold straddles; apply orb_comm).
  rewrite Hs.
  split; intros [H1 H2]; (split; [exact H1|]);
    unfold straddles in H1; reflect_bools;
    destruct (Z.ltb_spec 0 (py b - py a));
    destruct (Z.ltb_spec 0 (py a - py b)); try lia.
Qed.

Lemma perm_filter_length {A : Type} (f : A -> bool) (l l' : list A) :
  Permutation l l' ->
  List.length (filter f l) = List.length (filter f l').
Proof.
  intro Hperm. induction Hperm; simpl.
  - reflexivity.
  - destruct (f x); simpl; congruence.
  - destruct (f x), (f y); reflexivity.
  - congruence.
Qed.


End GeometryReverse.


Section GeometryBox.

Import Geometry.

Lemma edges_from_endpoint (v0 : point) (cnt : list point) (a b : point) :
  In (a, b) (edges_from v0 cnt) -> In b cnt.
Proof.
  revert v0. induction cnt as [|v cnt IH]; intros v0; cbn [edges_from].
  - intros [].
  - intros [[= _ ->]|H]; [now left|right; now apply (IH v)].
Qed.

Lemma polygon_edges_vertices (poly : polygon) (a b : point) :
  In (a, b) (polygon_edges poly) -> In a poly /\ In b poly.
Proof.
  destruct poly as [|v cnt]; [intros []|].
  intro H.
  apply (Permutation_in _ (Permutation_sym (visited_edges_perm v cnt))) in H.
  split.
  - destruct (edges_from_start _ _ _ _ H) as [->|Hin];
      [apply last_In|exact Hin].
  - now apply (edges_from_endpoint _ _ _ _ H).
Qed.

Lemma vertex_on_boundary (poly : polygon) (v : point) :
  In v poly -> on_boundary poly v.
Proof.
  destruct poly as [|w cnt]; [intros []|]. intro Hin.
  destruct (edges_from_end (last (w :: cnt) (0, 0)) _ _ Hin) as [a' Ha'].
  apply (Permutation_in _ (visited_edges_perm w cnt)) in Ha'.
  exists a', v. split; [exact Ha'|].
  unfold on_segment. repeat split; lia.
Qed.

(** On which side of the horizontal line at height [y] a vertex lies. *)
Lemma straddles_xorb (a b : point) (y : Z) :
  straddles a b y = xorb (py a <=? y) (py b <=? y).
Proof.
  unfold straddles.
  destruct (Z.leb_spec (py a) y), (Z.leb_spec (py b) y),
    (Z.ltb_spec y (py a)), (Z.ltb_spec y (py b)); try lia; reflexivity.
Qed.

Lemma last_cons_cons (v : point) (cnt : list point) (d : point) :
  last (v :: cnt) d = last cnt v.
Proof.
  destruct cnt as [|w cnt]; [reflexivity|].
  change (last (v :: w :: cnt) d) with (last (w :: cnt) d).
  apply last_cons_default.
Qed.

(** Along a chain of edges the number of edges that cross the line is
    even exactly when the chain ends on the side where it started. *)
Lemma straddle_parity (y : Z) (cnt : list point) (v0 : point) :
  Nat.even (List.length
              (filter (fun e => straddles (fst e) (snd e) y)
                      (edges_from v0 cnt)))
  = Bool.eqb (py v0 <=? y) (py (last cnt v0) <=? y).
Proof.
  revert v0. induction cnt as [|v cnt IH]; intro v0.
  - cbn. now rewrite eqb_reflx.
  - cbn [edges_from filter fst snd]. rewrite last_cons_cons.
    rewrite straddles_xorb.
    destruct (py v0 <=? y) eqn:E0, (py v <=? y) eqn:E1; cbn [xorb];
      cbn [List.length]; rewrite ?Nat.even_succ, <- ?Nat.negb_even, IH, E1;
      now destruct (py (last cnt v) <=? y).
Qed.

Lemma closed_straddles_even (y : Z) (poly : polygon) :
  Nat.even (List.length
              (filter (fun e => straddles (fst e) (snd e) y)
                      (polygon_edges poly))) = true.
Proof.
  destruct poly as [|v cnt]; [reflexivity|].
  rewrite <- (perm_filter_length _ _ _ (visited_edges_perm v cnt)).
  rewrite straddle_parity.
  rewrite (last_cons_default v cnt (last (v :: cnt) (0, 0)) (0, 0)).
  apply eqb_reflx.
Qed.

Lemma counted_when_right_of (p a b : point) :
  px p < px a -> px p < px b ->
  edge_counted p (a, b) = straddles a b (py p).
Proof.
  destruct p as [x y], a as [ax ay], b as [bx by_].
  unfold edge_counted, edge_skipped, edge_dist, straddles, px, py.
  cbn [fst snd]. intros Ha Hb.
  apply eq_true_iff_eq.
  rewrite !andb_true_iff, !negb_true_iff, !orb_false_iff, !andb_false_iff,
    !orb_true_iff, !andb_true_iff, !Z.leb_le, !Z.ltb_lt, !Z.leb_gt,
    !Z.ltb_ge.
  destruct (Z.ltb_spec by_ ay) as [Hlt|Hge]; split; intro Hyp.
  - lia.
  - split; [lia|nia].
  - lia.
  - split; [lia|nia].
Qed.

End GeometryBox.

(** X3. Every vertex of a polygon is reported as a hit (it lies on the
    boundary, value [0]); in particular the label anchor [polygon[0]] of a
    region lies in the region.  (Vertices with coordinates between -2^24 and
    2^24, where the conversions of the call are exact.) *)
Theorem vertex_is_hit (poly : polygon) (v : point) :
  Geometry.exact_polygon poly ->
  In v poly ->
  Geometry.pointPolygonTest poly v = 0
  /\ Geometry.region_hit poly v = true.
Proof.
  intros Hpoly Hin. pose proof (vertex_on_boundary poly v Hin) as Hb.
  assert (Hv : Geometry.exact_point v)
    by (unfold Geometry.exact_polygon in Hpoly;
        rewrite Forall_forall in Hpoly; now apply Hpoly).
  unfold Geometry.region_hit.
  destruct (pointPolygonTest_exact_cases poly v Hv)
    as [(B & ->)|[(B & _)|(B & _)]]; [now split|tauto|tauto].
Qed.

Lemma vertex_is_hit_witness :
  Geometry.region_hit Geometry.square (10, 10) = true.
Proof.
  apply (vertex_is_hit Geometry.square (10, 10)).
  - repeat constructor; unfold Geometry.exact_coordinate; simpl; lia.
  - right. right. left. reflexivity.
Defined.

Section GeometryBoxProof.

Import Geometry.

Lemma segment_in_box (poly : polygon) (a b p : point) :
  In a poly -> In b poly -> on_segment a b p ->
  (exists v, In v poly /\ px v <= px p)
  /\ (exists v, In v poly /\ px p <= px v)
  /\ (exists v, In v poly /\ py v <= py p)
  /\ (exists v, In v poly /\ py p <= py v).
Proof.
  intros Ha Hb (_ & Hx & Hy).
  repeat split.
  - destruct (Z.min_spec (px a) (px b)) as [[_ E]|[_ E]];
      [exists a|exists b]; split; try assumption; lia.
  - destruct (Z.max_spec (px a) (px b)) as [[_ E]|[_ E]];
      [exists b|exists a]; split; try assumption; lia.
  - destruct (Z.min_spec (py a) (py b)) as [[_ E]|[_ E]];
      [exists a|exists b]; split; try assumption; lia.
  - destruct (Z.max_spec (py a) (py b)) as [[_ E]|[_ E]];
      [exists b|exists a]; split; try assumption; lia.
Qed.

Lemma odd_filter_nonempty {A : Type} (f : A -> bool) (l : list A) :
  Nat.odd (List.length (filter f l)) = true ->
  exists x, In x l /\ f x = true.
Proof.
  destruct (filter f l) as [|x r] eqn:E; [discriminate|]. intros _.
  exists x. apply filter_In. rewrite E. now left.
Qed.

Lemma counted_edge_box (p a b : point) :
  edge_counted p (a, b) = true ->
  (px p <= px a \/ px p <= px b)
  /\ (py a <= py p \/ py b <= py p)
  /\ (py p <= py a \/ py p <= py b).
Proof.
  unfold edge_counted, edge_skipped. intro H.
  apply andb_true_iff in H as [H _]. apply negb_true_iff in H.
  reflect_bools; lia.
Qed.

Lemma inside_has_vertex_on_left (poly : polygon) (p : point) :
  inside_even_odd poly p -> exists v, In v poly /\ px v <= px p.
Proof.
  unfold inside_even_odd. rewrite <- counted_is_ray_crossings.
  intro Hodd.
  destruct (existsb (fun v => px v <=? px p) poly) eqn:E.
  - apply existsb_exists in E as (v & Hin & Hv).
    exists v. split; [exact Hin|now apply Z.leb_le].
  - exfalso.
    assert (Hall : forall v, In v poly -> px p < px v).
    { intros v Hin. apply Z.lt_nge. intro Hle.
      assert (existsb (fun v => px v <=? px p) poly = true).
      { apply existsb_exists. exists v. split; [exact Hin|].
        now apply Z.leb_le. }
      congruence. }
    rewrite (filter_ext_in (edge_counted p)
               (fun e => straddles (fst e) (snd e) (py p))) in Hodd.
    + rewrite <- Nat.negb_even, closed_straddles_even in Hodd.
      discriminate.
    + intros [a b] Hin. cbn [fst snd].
      destruct (polygon_edges_vertices poly a b Hin) as [Ha Hb].
      apply counted_when_right_of; now apply Hall.
Qed.

End GeometryBoxProof.

(** X4. The containment test never reports a hit outside the bounding box of
    the polygon's vertices: a point that is hit has a vertex to its left or
    level with it, one to its right, one below and one above (each "or
    level").  (Coordinates between -2^24 and 2^24, where the conversions of
    the call are exact.) *)
Theorem hit_inside_bounding_box (poly : polygon) (p : point) :
  Geometry.exact_polygon poly -> Geometry.exact_point p ->
  Geometry.region_hit poly p = true ->
  (exists v, In v poly /\ px v <= px p)
  /\ (exists v, In v poly /\ px p <= px v)
  /\ (exists v, In v poly /\ py v <= py p)
  /\ (exists v, In v poly /\ py p <= py v).
Proof.
  intros _ Hp.
  unfold Geometry.region_hit. rewrite Z.leb_le. intro Hhit.
  destruct (pointPolygonTest_exact_cases poly p Hp)
    as [((a & b & Hin & Hseg) & _)|[(_ & Hi & _)|(_ & _ & E)]].
  - destruct (polygon_edges_vertices poly a b Hin) as [Ha Hb].
    now apply (segment_in_box poly a b p).
  - split; [now apply inside_has_vertex_on_left|].
    unfold Geometry.inside_even_odd in Hi.
    rewrite <- counted_is_ray_crossings in Hi.
    destruct (odd_filter_nonempty _ _ Hi) as ([a b] & Hin & Hc).
    destruct (polygon_edges_vertices poly a b Hin) as [Ha Hb].
    destruct (counted_edge_box p a b Hc) as (Hx & Hy1 & Hy2).
    repeat split.
    + destruct Hx; [exists a|exists b]; now split.
    + destruct Hy1; [exists a|exists b]; now split.
    + destruct Hy2; [exists a|exists b]; now split.
  - rewrite E in Hhit. lia.
Qed.

Lemma hit_inside_bounding_box_witness :
  exists v, In v Geometry.square /\ px v <= px (5, 5).
Proof.
  apply (hit_inside_bounding_box Geometry.square (5, 5)).
  - repeat constructor; unfold Geometry.exact_coordinate; simpl; lia.
  - split; unfold Geometry.exact_coordinate; simpl; lia.
  - vm_compute. reflexivity.
Defined.

(** X5. A polygon with fewer than three vertices has no inside: with no
    vertex nothing is hit, with one vertex only that vertex, with two
    vertices exactly the points of the segment between them.  (Coordinates
    between -2^24 and 2^24, where the conversions of the call are exact.) *)
Theorem degenerate_polygon_hits (a b p : point) :
  Geometry.exact_point a -> Geometry.exact_point b ->
  Geometry.exact_point p ->
  Geometry.region_hit [] p = false
  /\ (Geometry.region_hit [a] p = true <-> p = a)
  /\ (Geometry.region_hit [a; b] p = true <-> Geometry.on_segment a b p).
Proof.
  intros _ _ Hp.
  split; [reflexivity|]. split.
  - unfold Geometry.region_hit. rewrite Z.leb_le.
    destruct (pointPolygonTest_exact_cases [a] p Hp)
      as [(B & ->)|[(B & I & ->)|(B & I & ->)]].
    + split; [intros _|lia].
      destruct B as (a' & b' & [[= <- <-]|[]] & (Hc & Hx & Hy)).
      destruct p, a. unfold px, py in *. cbn [fst snd] in *. f_equal; lia.
    + exfalso. unfold Geometry.inside_even_odd, Geometry.ray_crossings in I.
      cbn [Geometry.polygon_edges Geometry.consecutive app last filter] in I.
      assert (Hno : Geometry.ray_crosses p (a, a) = false).
      { apply not_true_iff_false. intro Hc.
        apply ray_crosses_Z in Hc as [Hs _].
        unfold Geometry.straddles in Hs. reflect_bools; lia. }
      rewrite Hno in I. discriminate.
    + split; [lia|]. intros ->. exfalso. apply B.
      apply vertex_on_boundary. now left.
  - unfold Geometry.region_hit. rewrite Z.leb_le.
    destruct (pointPolygonTest_exact_cases [a; b] p Hp)
      as [(B & ->)|[(B & I & ->)|(B & I & ->)]].
    + split; [intros _|lia].
      destruct B as (a' & b' & [[= <- <-]|[[= <- <-]|[]]] & Hseg);
        [exact Hseg|now apply on_segment_sym].
    + exfalso. unfold Geometry.inside_even_odd, Geometry.ray_crossings in I.
      cbn [Geometry.polygon_edges Geometry.consecutive app last filter] in I.
      rewrite (ray_crosses_sym p a b) in I.
      destruct (Geometry.ray_crosses p (a, b)); discriminate.
    + split; [lia|]. intro Hseg. exfalso. apply B.
      exists a, b. split; [now left|exact Hseg].
Qed.

Lemma degenerate_polygon_hits_witness :
  Geometry.region_hit [(0, 0); (10, 10)] (5, 5) = true.
Proof.
  apply (degenerate_polygon_hits (0, 0) (10, 10) (5, 5)).
  - split; unfold Geometry.exact_coordinate; simpl; lia.
  - split; unfold Geometry.exact_coordinate; simpl; lia.
  - split; unfold Geometry.exact_coordinate; simpl; lia.
  - unfold Geometry.on_segment, px, py. simpl. lia.
Defined.

Section GeometryShift.

Import Geometry.

Lemma scan_edges_shift (dx dy : Z) (ip v0 : point) (cnt : list point)
    (counter : nat) :
  scan_edges (More.shift dx dy ip) (More.shift dx dy v0)
             (map (More.shift dx dy) cnt) counter
  = scan_edges ip v0 cnt counter.
Proof.
  revert v0 counter. induction cnt as [|v cnt IH]; intros v0 counter.
  - reflexivity.
  - cbn [map scan_edges].
    assert (Hs : edge_skipped (More.shift dx dy ip) (More.shift dx dy v0)
                   (More.shift dx dy v) = edge_skipped ip v0 v).
    { unfold edge_skipped, More.shift, px, py. cbn [fst snd].
      repeat match goal with
             | |- context [?a + ?d <=? ?b + ?d] =>
                 replace (a + d <=? b + d) with (a <=? b)
                   by (destruct (Z.leb_spec a b), (Z.leb_spec (a + d) (b + d));
                       try reflexivity; lia)
             | |- context [?a + ?d <? ?b + ?d] =>
                 replace (a + d <? b + d) with (a <? b)
                   by (destruct (Z.ltb_spec a b), (Z.ltb_spec (a + d) (b + d));
                       try reflexivity; lia)
             end. reflexivity. }
    assert (Ht : edge_touch (More.shift dx dy ip) (More.shift dx dy v0)
                   (More.shift dx dy v) = edge_touch ip v0 v).
    { unfold edge_touch, More.shift, px, py. cbn [fst snd].
      repeat match goal with
             | |- context [?a + ?d <=? ?b + ?d] =>
                 replace (a + d <=? b + d) with (a <=? b)
                   by (destruct (Z.leb_spec a b), (Z.leb_spec (a + d) (b + d));
                       try reflexivity; lia)
             | |- context [?a + ?d =? ?b + ?d] =>
                 replace (a + d =? b + d) with (a =? b)
                   by (destruct (Z.eqb_spec a b), (Z.eqb_spec (a + d) (b + d));
                       try reflexivity; lia)
             end. reflexivity. }
    assert (Hd : edge_dist (More.shift dx dy ip) (More.shift dx dy v0)
                   (More.shift dx dy v) = edge_dist ip v0 v).
    { unfold edge_dist, More.shift, px, py. cbn [fst snd]. ring. }
    assert (Hy : (py (More.shift dx dy v) <? py (More.shift dx dy v0))
                 = (py v <? py v0)).
    { unfold More.shift, py. cbn [fst snd].
      destruct (Z.ltb_spec (snd v) (snd v0)),
        (Z.ltb_spec (snd v + dy) (snd v0 + dy)); try reflexivity; lia. }
    rewrite Hs, Ht, Hd, Hy, !IH. reflexivity.
Qed.

Lemma last_map_shift (dx dy : Z) (l : list point) (d : point) :
  last (map (More.shift dx dy) l) (More.shift dx dy d)
  = More.shift dx dy (last l d).
Proof.
  induction l as [|a l IH]; [reflexivity|].
  destruct l as [|b l]; [reflexivity|]. exact IH.
Qed.

End GeometryShift.

(** X6. The containment test only depends on where the point lies relative
    to the polygon: moving the polygon and the point by the same offset does
    not change the result, as long as all coordinates, before and after the
    move, lie between -2^24 and 2^24 (where the conversions of the call are
    exact). *)
Theorem pointPolygonTest_translation (dx dy : Z) (poly : polygon) (p : point) :
  Geometry.exact_polygon poly -> Geometry.exact_point p ->
  Geometry.exact_polygon (map (More.shift dx dy) poly) ->
  Geometry.exact_point (More.shift dx dy p) ->
  Geometry.pointPolygonTest (map (More.shift dx dy) poly) (More.shift dx dy p)
  = Geometry.pointPolygonTest poly p.
Proof.
  intros _ Hp _ Hsp.
  destruct poly as [|v cnt]; [reflexivity|].
  unfold Geometry.pointPolygonTest. cbn [map].
  rewrite (point2f_exact p Hp), (point2f_exact _ Hsp).
  rewrite (last_cons_default (More.shift dx dy v) (map (More.shift dx dy) cnt)
             (0, 0) (More.shift dx dy (0, 0))).
  change (More.shift dx dy v :: map (More.shift dx dy) cnt)
    with (map (More.shift dx dy) (v :: cnt)).
  rewrite last_map_shift. apply scan_edges_shift.
Qed.

Lemma pointPolygonTest_translation_witness :
  Geometry.pointPolygonTest (map (More.shift 100 (-20)) Geometry.square)
    (More.shift 100 (-20) (5, 5))
  = Geometry.pointPolygonTest Geometry.square (5, 5).
Proof.
  apply (pointPolygonTest_translation 100 (-20) Geometry.square (5, 5)).
  - repeat constructor; unfold Geometry.exact_coordinate; simpl; lia.
  - split; unfold Geometry.exact_coordinate; simpl; lia.
  - repeat constructor; unfold Geometry.exact_coordinate; simpl; lia.
  - split; unfold Geometry.exact_coordinate; simpl; lia.
Defined.

(** ** More on the overlay *)

Section OverlayMore.

Import Overlay.

Lemma connect_appends (p1 p2 : point) (check : list string) (img : canvas) :
  connect p1 p2 check img
  = img ++ (if (List.length check =? 2)%nat
            then Line p1 p2 green 10
                 :: flat_map flight_text
                      (Travel.lookup (nth 0 check EmptyString)
                                     (nth 1 check EmptyString))
            else []).
Proof.
  destruct check as [|a [|b [|c check]]]; cbn; now rewrite ?app_nil_r.
Qed.

Lemma create_overlay_image_pair (polygons : list region) (p1 p2 : point)
    (img : canvas) :
  create_overlay_image polygons (Pair p1 p2) img =
  let check := matching_names polygons p1 ++ matching_names polygons p2 in
  Ok (img
        ++ (flat_map highlight_calls (matching_regions polygons p1)
            ++ flat_map highlight_calls (matching_regions polygons p2))
        ++ (if (List.length check =? 2)%nat
            then Line p1 p2 green 10
                 :: flat_map flight_text
                      (Travel.lookup (nth 0 check EmptyString)
                                     (nth 1 check EmptyString))
            else [])).
Proof.
  cbn [create_overlay_image]. rewrite overlay_and_check_eq.
  cbn zeta. cbn [bind]. rewrite connect_appends.
  now rewrite <- !app_assoc.
Qed.


Lemma highlight_calls_shape (rs : list region) (d : draw) :
  In d (flat_map highlight_calls rs) ->
  exists r, In r rs
            /\ (d = Polylines (fst r) true green 2
                \/ d = FillPoly (fst r) green
                \/ d = PutTextRect (snd r) (hd (0, 0) (fst r)) 1 1).
Proof.
  intro H. apply in_flat_map in H as (r & Hin & Hd).
  exists r. split; [exact Hin|].
  destruct Hd as [<-|[<-|[<-|[]]]]; auto.
Qed.

End OverlayMore.



(** X9. In the two-point case the connecting line is drawn exactly when the
    two points have two matches in total, however they are spread over the
    points; the lookup then uses the first two collected names, and the
    drawing calls are the highlights of the first point's regions, those of
    the second point's regions, the line, and the text of the rows found. *)
Theorem line_iff_two_matches_in_total
    (polygons : list Overlay.region) (p1 p2 : point) :
  let check := Overlay.matching_names polygons p1
               ++ Overlay.matching_names polygons p2 in
  let highlights :=
    flat_map Overlay.highlight_calls (Overlay.matching_regions polygons p1)
    ++ flat_map Overlay.highlight_calls (Overlay.matching_regions polygons p2)
  in
  exists out,
    Overlay.create_overlay_image polygons (Overlay.Pair p1 p2) [] = Ok out
    /\ (In (Overlay.Line p1 p2 Overlay.green 10) out
        <-> List.length check = 2%nat)
    /\ (List.length check = 2%nat ->
        out = highlights
                ++ Overlay.Line p1 p2 Overlay.green 10
                   :: flat_map Overlay.flight_text
                        (Travel.lookup (nth 0 check EmptyString)
                                       (nth 1 check EmptyString)))
    /\ (List.length check <> 2%nat -> out = highlights).
Proof.
  intros check highlights.
  rewrite create_overlay_image_pair. cbn zeta. fold check. fold highlights.
  eexists. split; [reflexivity|]. cbn [app].
  destruct (Nat.eqb_spec (List.length check) 2) as [E|E].
  - split; [|split; [reflexivity|congruence]].
    split; [intros _; exact E|intros _].
    apply in_app_iff. right. now left.
  - split; [|split; [congruence|intros _; apply app_nil_r]].
    split; [|congruence]. rewrite app_nil_r. intro H.
    unfold highlights in H. rewrite <- flat_map_app in H.
    destruct (highlight_calls_shape _ _ H) as (r & _ & [Hd|[Hd|Hd]]);
      discriminate.
Qed.

(** One point inside two overlapping regions and the other point in none:
    two matches in total, so the line is drawn between the two points. *)
Lemma line_iff_two_matches_witness :
  exists out,
    Overlay.create_overlay_image Sample.overlapping_regions
      (Overlay.Pair (7, 7) (100, 100)) [] = Ok out
    /\ In (Overlay.Line (7, 7) (100, 100) Overlay.green 10) out.
Proof.
  destruct (line_iff_two_matches_in_total Sample.overlapping_regions
              (7, 7) (100, 100)) as (out & E & Hline & _).
  exists out. split; [exact E|]. apply Hline. reflexivity.
Defined.



(** ** More on truncation *)

Section TruncationBounds.

Import Homography.

Lemma Qtruncate_nonneg (q : Q) :
  (0 <= q)%Q ->
  0 <= Qtruncate q
  /\ (inject_Z (Qtruncate q) <= q)%Q
  /\ (q < inject_Z (Qtruncate q + 1))%Q.
Proof.
  intro H. unfold Qtruncate.
  rewrite (proj2 (Qle_bool_iff 0 q) H).
  split; [|split].
  - change 0 with (Qfloor 0). now apply Qfloor_resp_le.
  - apply Qfloor_le.
  - apply Qlt_floor.
Qed.

Lemma Qtruncate_nonpos (q : Q) :
  (q <= 0)%Q ->
  Qtruncate q <= 0
  /\ (q <= inject_Z (Qtruncate q))%Q
  /\ (inject_Z (Qtruncate q - 1) < q)%Q.
Proof.
  intro H. unfold Qtruncate.
  destruct (Qle_bool 0 q) eqn:E.
  - apply Qle_bool_iff in E.
    assert (Hq : (q == 0)%Q) by now apply Qle_antisym.
    assert (Hf : Qfloor q = 0).
    { apply Z.le_antisymm.
      - change 0 with (Qfloor 0). now apply Qfloor_resp_le.
      - change 0 with (Qfloor 0). now apply Qfloor_resp_le. }
    rewrite Hf. split; [lia|]. split.
    + now rewrite Hq.
    + rewrite Hq. reflexivity.
  - split; [|split].
    + change 0 with (Qceiling 0). now apply Qceiling_resp_le.
    + apply Qle_ceiling.
    + apply Qceiling_lt.
Qed.

End TruncationBounds.

(** X11. The coordinates returned by [warp_single_point] are the quotients
    cut toward zero: a coordinate has the sign of its quotient (or is zero),
    is never further from zero than the quotient, and differs from it by
    less than one. *)
Theorem warp_single_point_toward_zero
    (pt : point) (m : Homography.matrix) (a b : Z) :
  Homography.warp_single_point pt m = Ok (a, b) ->
  let h := Homography.point_homogeneous_transformed m pt in
  let q0 := Homography.value (Homography.fdiv (fst (fst h)) (snd h)) in
  let q1 := Homography.value (Homography.fdiv (snd (fst h)) (snd h)) in
  ((0 <= q0)%Q -> 0 <= a /\ (inject_Z a <= q0 < inject_Z (a + 1))%Q)
  /\ ((q0 <= 0)%Q -> a <= 0 /\ (inject_Z (a - 1) < q0 <= inject_Z a)%Q)
  /\ ((0 <= q1)%Q -> 0 <= b /\ (inject_Z b <= q1 < inject_Z (b + 1))%Q)
  /\ ((q1 <= 0)%Q -> b <= 0 /\ (inject_Z (b - 1) < q1 <= inject_Z b)%Q).
Proof.
  intros H h q0 q1.
  rewrite warp_single_point_unfold in H. fold h in H.
  destruct (Homography.int_of_float
              (Homography.fdiv (fst (fst h)) (snd h))) as [a'|] eqn:Ha;
    [|discriminate].
  destruct (Homography.int_of_float
              (Homography.fdiv (snd (fst h)) (snd h))) as [b'|] eqn:Hb;
    [|discriminate].
  cbn [bind] in H. injection H as <- <-.
  apply int_of_float_truncates in Ha, Hb. fold q0 in Ha. fold q1 in Hb.
  subst a' b'.
  repeat split;
    try (now apply Qtruncate_nonneg); try (now apply Qtruncate_nonpos).
Qed.

Lemma warp_single_point_toward_zero_witness :
  (inject_Z (-4) < Homography.value
                     (Homography.fdiv
                        (snd (fst (Homography.point_homogeneous_transformed
                                     Sample.halving (5, 7)%Z)))
                        (snd (Homography.point_homogeneous_transformed
                                Sample.halving (5, 7)%Z)))
   <= inject_Z (-3))%Q.
Proof.
  destruct (warp_single_point_toward_zero (5, 7) Sample.halving 2 (-3)
              eq_refl) as (_ & _ & _ & H).
  apply H. vm_compute. discriminate.
Defined.

(** ** More on the blend *)

Section BlendMore.

Import Blend More.

Lemma uint8_zero : uint8 0.
Proof. unfold uint8. lia. Qed.

Lemma addWeighted_pixel_zero (p : pixel) :
  uint8_pixel p -> addWeighted_pixel p (0, 0, 0) = p.
Proof.
  destruct p as [[a0 a1] a2]. intros (H0 & H1 & H2). cbn in H0, H1, H2.
  cbn [addWeighted_pixel].
  rewrite (proj2 (proj2 (addWeighted_channel_spec a0 0 H0 uint8_zero)) eq_refl).
  rewrite (proj2 (proj2 (addWeighted_channel_spec a1 0 H1 uint8_zero)) eq_refl).
  rewrite (proj2 (proj2 (addWeighted_channel_spec a2 0 H2 uint8_zero)) eq_refl).
  reflexivity.
Qed.

Lemma addWeighted_pixel_uint8 (p q : pixel) :
  uint8_pixel p -> uint8_pixel q -> uint8_pixel (addWeighted_pixel p q).
Proof.
  destruct p as [[a0 a1] a2], q as [[b0 b1] b2].
  intros (H0 & H1 & H2) (K0 & K1 & K2). cbn in H0, H1, H2, K0, K1, K2.
  unfold uint8_pixel. cbn [addWeighted_pixel fst snd].
  destruct (addWeighted_channel_spec a0 b0 H0 K0) as (_ & L0 & _).
  destruct (addWeighted_channel_spec a1 b1 H1 K1) as (_ & L1 & _).
  destruct (addWeighted_channel_spec a2 b2 H2 K2) as (_ & L2 & _).
  unfold uint8 in *. repeat split; lia.
Qed.

Lemma zip_with_Forall {A B C : Type} (f : A -> B -> C)
    (P : A -> Prop) (Q : B -> Prop) (R : C -> Prop) :
  (forall a b, P a -> Q b -> R (f a b)) ->
  forall l l', Forall P l -> Forall Q l' -> Forall R (zip_with f l l').
Proof.
  intros Hf l. induction l as [|a l IH]; intros [|b l'] Hl Hl';
    cbn [zip_with]; try constructor.
  - apply Hf; [now inversion Hl|now inversion Hl'].
  - apply IH; [now inversion Hl|now inversion Hl'].
Qed.

Lemma zip_with_length {A B C : Type} (f : A -> B -> C)
    (l : list A) (l' : list B) :
  List.length (zip_with f l l')
  = Nat.min (List.length l) (List.length l').
Proof.
  revert l'. induction l as [|a l IH]; intros [|b l']; cbn; try reflexivity.
  now rewrite IH.
Qed.

Lemma zip_with_blank_row (row : list pixel) :
  Forall uint8_pixel row ->
  zip_with addWeighted_pixel row (map (fun _ => (0, 0, 0)) row) = row.
Proof.
  induction 1 as [|p row Hp _ IH]; cbn [zip_with map]; [reflexivity|].
  now rewrite addWeighted_pixel_zero, IH.
Qed.

Lemma addWeighted_blank (img : image) :
  uint8_image img -> addWeighted img (blank_like img) = img.
Proof.
  unfold addWeighted, blank_like.
  induction 1 as [|row img Hrow _ IH]; cbn [zip_with map]; [reflexivity|].
  now rewrite zip_with_blank_row, IH.
Qed.

End BlendMore.

(** X12. Compositing an overlay whose inverse-warped image is all zero
    leaves a byte image exactly as it was: [inverse_warp_image] returns the
    camera frame itself, not only pixel by pixel but as an image. *)
Theorem blank_overlay_keeps_frame
    (getPerspectiveTransform : list point -> list point -> Homography.matrix)
    (warpPerspective : Blend.image -> Homography.matrix -> Z * Z -> Blend.image)
    (img imgOverlay : Blend.image) (map_points : list point) :
  More.uint8_image img ->
  Blend.warped_overlay getPerspectiveTransform warpPerspective
    img imgOverlay map_points = More.blank_like img ->
  Blend.inverse_warp_image getPerspectiveTransform warpPerspective
    img imgOverlay map_points = img.
Proof.
  intros Himg Hblank. unfold Blend.inverse_warp_image.
  rewrite Hblank. now apply addWeighted_blank.
Qed.

Lemma blank_overlay_keeps_frame_witness :
  Blend.inverse_warp_image Sample.no_transform Sample.no_resample
    Sample.frame (More.blank_like Sample.frame) Sample.corners
  = Sample.frame.
Proof.
  apply blank_overlay_keeps_frame.
  - repeat constructor; unfold Blend.uint8; simpl; lia.
  - reflexivity.
Defined.

(** X13. On two byte images of one shape [addWeighted] gives a byte image
    of that shape again: every channel of the result lies in 0..255, and the
    result has the rows of the first image, each with as many pixels. *)
Theorem addWeighted_stays_uint8 (src1 src2 : Blend.image) :
  More.uint8_image src1 -> More.uint8_image src2 ->
  More.same_shape src1 src2 ->
  More.uint8_image (Blend.addWeighted src1 src2)
  /\ More.same_shape src1 (Blend.addWeighted src1 src2).
Proof.
  intros H1 H2 Hshape. split.
  - unfold More.uint8_image, Blend.addWeighted in *.
    apply (zip_with_Forall _ (Forall More.uint8_pixel)
             (Forall More.uint8_pixel)); try assumption.
    intros row1 row2. apply zip_with_Forall. apply addWeighted_pixel_uint8.
  - unfold More.same_shape, Blend.addWeighted in *. clear H1 H2.
    induction Hshape as [|row1 row2 rows1 rows2 Hlen _ IH];
      cbn [Blend.zip_with]; constructor.
    + rewrite zip_with_length, <- Hlen. now rewrite Nat.min_id.
    + exact IH.
Qed.

Lemma addWeighted_stays_uint8_witness :
  More.uint8_image (Blend.addWeighted Sample.frame Sample.green_patch).
Proof.
  apply (addWeighted_stays_uint8 Sample.frame Sample.green_patch).
  - repeat constructor; unfold Blend.uint8; simpl; lia.
  - repeat constructor; unfold Blend.uint8; simpl; lia.
  - repeat constructor.
Defined.

(** ** More on the authoring tool *)

Section AuthoringMore.

Import Authoring.

Variable getPerspectiveTransform :
  list point -> list point -> Homography.matrix.
Variable warpPerspective :
  Blend.image -> Homography.matrix -> Z * Z -> Blend.image.
Variable paint : Blend.image -> Overlay.canvas -> Blend.image.

(** A turn on any input: what it writes, and where it leaves the globals
    when the loop goes on. *)
Lemma any_turn (s : tool) (success : bool) (img : option Blend.image)
    (evs : list (Z * Z * Z)) (key : Z) :
  List.length (points s) = 4%nat ->
  dumps (Trace.calls
           (iteration getPerspectiveTransform warpPerspective paint
              s success img evs key))
  = (if (counter s =? 4)%nat then [Trace.Dump "map.p" (points s)] else [])
  /\ (forall s',
        Trace.outcome
          (iteration getPerspectiveTransform warpPerspective paint
             s success img evs key) = Ok (Continue, s') ->
        s' = deliver_all s evs).
Proof.
  intro Hlen. destruct (four_rows _ Hlen) as (a & b & c & d & Hrows).
  unfold iteration. rewrite Hrows.
  destruct (counter s =? 4)%nat, img as [im|], success,
    (Z.land key 255 =? 113); cbn; split; try reflexivity;
    intros s' E; try discriminate; now injection E.
Qed.

Lemma presses_app (evs evs' : list (Z * Z * Z)) :
  presses (evs ++ evs') = presses evs ++ presses evs'.
Proof. unfold presses. now rewrite filter_app, map_app. Qed.

Lemma full_points (cl : list point) :
  (4 <= List.length cl)%nat -> points (after_presses cl) = firstn 4 cl.
Proof.
  intro H. unfold after_presses. cbn [points].
  replace (4 - List.length cl)%nat with 0%nat by lia.
  apply app_nil_r.
Qed.

Lemma firstn_app_full (cl more : list point) :
  (4 <= List.length cl)%nat -> firstn 4 (cl ++ more) = firstn 4 cl.
Proof.
  intro H. rewrite firstn_app.
  replace (4 - List.length cl)%nat with 0%nat by lia.
  apply app_nil_r.
Qed.

Lemma run_dumps_any (script : list (bool * option Blend.image
                                    * list (Z * Z * Z) * Z)) :
  forall (cl : list point) (c : Trace.call),
    In c (dumps (fst (run getPerspectiveTransform warpPerspective paint
                        (after_presses cl) script))) ->
    c = Trace.Dump "map.p"
          (firstn 4 (cl ++ presses (More.script_events script)))
    /\ (4 <= List.length (cl ++ presses (More.script_events script)))%nat.
Proof.
  induction script as [|[[[success img] evs] key] script IH]; intros cl c.
  - intros [].
  - cbn [run More.script_events flat_map fst snd].
    fold (More.script_events script).
    pose proof (any_turn (after_presses cl) success img evs key
                  (after_presses_length cl)) as [Hd Hs].
    destruct (iteration getPerspectiveTransform warpPerspective paint
                (after_presses cl) success img evs key) as [t r].
    unfold Trace.calls, Trace.outcome in Hd, Hs. cbn [fst snd] in Hd, Hs.
    assert (Hhere : In c (dumps t) ->
                    c = Trace.Dump "map.p"
                          (firstn 4 (cl ++ presses
                                       (evs ++ More.script_events script)))
                    /\ (4 <= List.length
                               (cl ++ presses
                                        (evs ++ More.script_events script)))%nat).
    { rewrite Hd. unfold after_presses at 1. cbn [counter].
      destruct (Nat.eqb_spec (Nat.min (List.length cl) 4) 4) as [E|E];
        [|intros []].
      intros [<-|[]]. rewrite length_app.
      rewrite firstn_app_full, full_points by lia. split; [reflexivity|lia]. }
    destruct r as [[[|] s']|e]; cbn [fst]; try exact Hhere.
    destruct (run getPerspectiveTransform warpPerspective paint s' script)
      as [t' s''] eqn:Erun. cbn [fst].
    unfold dumps. rewrite filter_app. intro Hin.
    apply in_app_iff in Hin as [Hin|Hin]; [now apply Hhere|].
    rewrite (Hs s' eq_refl), deliver_all_presses in Erun.
    specialize (IH (cl ++ presses evs) c).
    rewrite Erun in IH. cbn [fst] in IH.
    rewrite presses_app, app_assoc. now apply IH.
Qed.

Lemma map_file_rows (script : list (bool * option Blend.image
                                    * list (Z * Z * Z) * Z))
    (file : string) (pts : list point) :
  In (Trace.Dump file pts)
     (dumps (fst (run getPerspectiveTransform warpPerspective paint
                    initial script))) ->
  exists a b c d, pts = [a; b; c; d].
Proof.
  rewrite initial_after_presses. intro H.
  destruct (run_dumps_any script [] _ H) as [E Hlen].
  assert (Hp : pts = firstn 4 ([] ++ presses (More.script_events script)))
    by congruence.
  apply four_rows. rewrite Hp, length_firstn. lia.
Qed.

End AuthoringMore.

(** X14. Whatever the frames, mouse events and keys of a run of the
    authoring loop are, every write of "map.p" carries the first four
    left-button presses of the run, and no write happens in a run with fewer
    than four presses: the file never holds a partly filled array, and its
    contents never change once written. *)
Theorem map_file_holds_first_four_presses
    (getPerspectiveTransform : list point -> list point -> Homography.matrix)
    (warpPerspective : Blend.image -> Homography.matrix -> Z * Z -> Blend.image)
    (paint : Blend.image -> Overlay.canvas -> Blend.image)
    (script : list (bool * option Blend.image * list (Z * Z * Z) * Z))
    (c : Trace.call) :
  In c (Authoring.dumps
          (fst (Authoring.run getPerspectiveTransform warpPerspective paint
                  Authoring.initial script))) ->
  c = Trace.Dump "map.p"
        (firstn 4 (Authoring.presses (More.script_events script)))
  /\ (4 <= List.length (Authoring.presses (More.script_events script)))%nat.
Proof.
  rewrite initial_after_presses. intro H.
  exact (run_dumps_any getPerspectiveTransform warpPerspective paint
           script [] c H).
Qed.

Lemma map_file_holds_first_four_presses_witness :
  Trace.Dump "map.p" Sample.corners
  = Trace.Dump "map.p"
      (firstn 4 (Authoring.presses
                   (More.script_events
                      [ (true, Some Sample.frame,
                         Sample.four_clicks ++ [Sample.click 9 9], 0);
                        (false, None, [], 0) ]))).
Proof.
  apply (map_file_holds_first_four_presses Sample.no_transform
           Sample.no_resample Sample.no_paint
           [ (true, Some Sample.frame,
              Sample.four_clicks ++ [Sample.click 9 9], 0);
             (false, None, [], 0) ]).
  left. reflexivity.
Defined.

(** X15. What the authoring loop writes is what the frame loop needs: every
    array written to "map.p" has exactly four rows, so [warp_image] of
    [flight_time.py] accepts it for any captured frame (no [IndexError]) and
    computes the transform from exactly these four points. *)
Theorem saved_points_are_accepted
    (getPerspectiveTransform : list point -> list point -> Homography.matrix)
    (warpPerspective : Blend.image -> Homography.matrix -> Z * Z -> Blend.image)
    (paint : Blend.image -> Overlay.canvas -> Blend.image)
    (script : list (bool * option Blend.image * list (Z * Z * Z) * Z))
    (file : string) (pts : list point) (im : Blend.image) :
  In (Trace.Dump file pts)
     (Authoring.dumps
        (fst (Authoring.run getPerspectiveTransform warpPerspective paint
                Authoring.initial script))) ->
  List.length pts = 4%nat
  /\ FrameLoop.warp_image getPerspectiveTransform warpPerspective
       (Some im) pts
     = Ok (warpPerspective im
             (getPerspectiveTransform pts More.canonical_corners)
             (1920, 1080),
           getPerspectiveTransform pts More.canonical_corners).
Proof.
  intro H.
  destruct (map_file_rows getPerspectiveTransform warpPerspective paint
              script file pts H) as (a & b & c & d & ->).
  split; reflexivity.
Qed.

Lemma saved_points_are_accepted_witness :
  List.length Sample.corners = 4%nat.
Proof.
  apply (saved_points_are_accepted Sample.no_transform Sample.no_resample
           Sample.no_paint
           [ (true, Some Sample.frame, Sample.four_clicks, 0);
             (true, Some Sample.frame, [], 0) ]
           "map.p" Sample.corners Sample.frame).
  left. reflexivity.
Defined.

(** ** More on the frame loop *)

(** X17. [get_finger_location] answers by the number of detected hands: no
    point exactly when no hand is detected, a pair of points exactly when
    two hands are detected, and one point (that of the first hand) for any
    other number of hands; it draws one dot per returned point. *)
Theorem finger_location_cardinality
    (hands : list FrameLoop.hand) (matrix : Homography.matrix)
    (r : option Overlay.warped_point) (dots : Overlay.canvas) :
  FrameLoop.get_finger_location hands matrix = Ok (r, dots) ->
  (More.cardinality r = 0%nat <-> hands = [])
  /\ (More.cardinality r = 2%nat <-> List.length hands = 2%nat)
  /\ List.length dots = More.cardinality r
  /\ (forall hand1 rest,
        hands = hand1 :: rest -> List.length rest <> 1%nat ->
        FrameLoop.get_finger_location [hand1] matrix = Ok (r, dots)).
Proof.
  unfold FrameLoop.get_finger_location.
  destruct hands as [|hand1 rest].
  - intros [= <- <-]. repeat split; try reflexivity; try discriminate.
  - destruct (FrameLoop.index_finger hand1) as [f1|] eqn:E1; [|discriminate].
    cbn [bind].
    destruct (Homography.warp_single_point f1 matrix) as [w1|] eqn:E2;
      [|discriminate].
    cbn [bind].
    destruct (FrameLoop.circle w1 (255, 0, 0)) as [d1|] eqn:E3; [|discriminate].
    cbn [bind].
    destruct rest as [|hand2 [|hand3 rest]].
    + intros [= <- <-]. repeat split; try reflexivity; try discriminate.
      intros h r' [= <- <-] _. rewrite E1. cbn [bind]. rewrite E2.
      cbn [bind]. now rewrite E3.
    + destruct (FrameLoop.index_finger hand2) as [f2|]; [|discriminate].
      cbn [bind].
      destruct (Homography.warp_single_point f2 matrix) as [w2|];
        [|discriminate].
      cbn [bind].
      destruct (FrameLoop.circle w2 (255, 0, 255)) as [d2|]; [|discriminate].
      cbn [bind]. intros [= <- <-].
      repeat split; try reflexivity; try discriminate.
      intros h r' [= <- <-] Hne. now contradiction Hne.
    + intros [= <- <-]. repeat split; try reflexivity; try discriminate.
      intros h r' [= <- <-] _. rewrite E1. cbn [bind]. rewrite E2.
      cbn [bind]. now rewrite E3.
Qed.

Lemma finger_location_cardinality_witness :
  exists r dots,
    FrameLoop.get_finger_location
      [More.hand_at 5 7; More.hand_at 6 8; More.hand_at 1 1] Sample.halving
    = Ok (r, dots)
    /\ More.cardinality r = 1%nat
    /\ List.length dots = 1%nat.
Proof.
  assert (E : FrameLoop.get_finger_location
                [More.hand_at 5 7; More.hand_at 6 8; More.hand_at 1 1]
                Sample.halving
              = Ok (Some (Overlay.Single (2, -3)),
                    [Overlay.Circle (2, -3) 5 (255, 0, 0)]))
    by (vm_compute; reflexivity).
  eexists. eexists. split; [exact E|].
  destruct (finger_location_cardinality _ _ _ _ E) as (_ & _ & Hd & _).
  split; [reflexivity|exact Hd].
Defined.

(** X18. The dot of a finger is drawn with [cv2.circle], which reads its
    centre as C ints: when a coordinate of the warped point of the first hand
    lies outside the 32-bit range, [get_finger_location] fails with the
    OpenCV error, whatever the other hands are. *)
Theorem finger_dot_needs_c_int
    (hand1 : FrameLoop.hand) (rest : list FrameLoop.hand)
    (matrix : Homography.matrix) (finger warped : point) :
  FrameLoop.index_finger hand1 = Ok finger ->
  Homography.warp_single_point finger matrix = Ok warped ->
  FrameLoop.c_int (px warped) && FrameLoop.c_int (py warped) = false ->
  FrameLoop.get_finger_location (hand1 :: rest) matrix = Raise CvError.
Proof.
  intros E1 E2 E3. unfold FrameLoop.get_finger_location.
  rewrite E1. cbn [bind]. rewrite E2. cbn [bind].
  unfold FrameLoop.circle. rewrite E3. reflexivity.
Qed.

Lemma finger_dot_needs_c_int_witness :
  FrameLoop.get_finger_location [More.hand_at 1 1] Sample.stretching
  = Raise CvError.
Proof.
  apply (finger_dot_needs_c_int (More.hand_at 1 1) [] Sample.stretching
           (1, 1) (1099511627776, 1)).
  - reflexivity.
  - vm_compute. reflexivity.
  - reflexivity.
Defined.

(** ** More on the authoring loop *)

(** X19. While fewer than four points are collected, a failed capture ends
    the authoring loop as intended: the four preview circles are attempted
    on the missing frame, where they draw nothing, then "Failed to capture
    image" is printed and the loop is left with the collected points as they
    were; nothing is shown and no mouse event of that turn is delivered. *)
Theorem failed_capture_before_four_points
    (getPerspectiveTransform : list point -> list point -> Homography.matrix)
    (warpPerspective : Blend.image -> Homography.matrix -> Z * Z -> Blend.image)
    (paint : Blend.image -> Overlay.canvas -> Blend.image)
    (cl : list point) (events : list (Z * Z * Z)) (key : Z) :
  (List.length cl < 4)%nat ->
  Authoring.iteration getPerspectiveTransform warpPerspective paint
    (Authoring.after_presses cl) false None events key
  = (map (Trace.DrawCircle None)
         (Authoring.points (Authoring.after_presses cl))
       ++ [Trace.Print "Failed to capture image"],
     Ok (Authoring.Break, Authoring.after_presses cl)).
Proof.
  intro Hlen.
  destruct cl as [|a [|b [|c [|d cl]]]]; cbn [List.length] in Hlen;
    try lia; reflexivity.
Qed.

Lemma failed_capture_before_four_points_witness :
  Trace.outcome
    (Authoring.iteration Sample.no_transform Sample.no_resample
       Sample.no_paint (Authoring.after_presses [(1, 2)]) false None
       Sample.four_clicks 0)
  = Ok (Authoring.Break, Authoring.after_presses [(1, 2)]).
Proof.
  exact (f_equal snd
           (failed_capture_before_four_points Sample.no_transform
              Sample.no_resample Sample.no_paint [(1, 2)]
              Sample.four_clicks 0 ltac:(simpl; lia))).
Defined.
